(** * The [release] module of the [github_enterprise] collection

    A shallow embedding of [plugins/modules/release.py] and the
    properties of its single procedure [run_module]: which release
    assets are selected, which requests are issued, which files are
    written, and which terminal outcome is reported to the host. *)

From Stdlib Require Import Ascii.
From stdpp Require Import base option list strings pretty gmap.

Open Scope string_scope.
Open Scope list_scope.
Open Scope Z_scope.

(** ** Data model *)

(** The parameters bound by [AnsibleModule]: the four required strings,
    the three optional ones ([None] in Python when not supplied), and
    the host's check-mode flag. *)
Record params := Params {
  url : string;
  owner : string;
  repo : string;
  token : string;
  tag : option string;
  output_path : option string;
  asset_names : option (list string);
  check_mode : bool
}.

(** One entry of the ["assets"] array of a release: the values under
    the keys ["id"] and ["name"].  The id is an integer, as the server
    sends it; an id of another JSON type is outside this model. *)
Record asset := Asset {
  asset_id : Z;
  asset_name : string
}.

(** ** The dictionary [assets_to_download]

    A Python [dict] keeps its keys in insertion order; assigning to a
    key that is already present replaces the value and leaves the key
    where it was first inserted.  Keys are asset ids, values asset
    names. *)
Definition dict := list (Z * string).

Fixpoint dict_update (k : Z) (v : string) (d : dict) : dict :=
  match d with
  | [] => [(k, v)]
  | (k', v') :: d' =>
      if decide (k = k') then (k, v) :: d' else (k', v') :: dict_update k v d'
  end.

(** [asset_names is not None and name not in asset_names] *)
Definition skipped (names : option (list string)) (name : string) : bool :=
  match names with
  | None => false
  | Some l => negb (bool_decide (name ∈ l))
  end.

(** The body of the loop [for asset in assets]. *)
Definition select_step (names : option (list string)) (d : dict) (a : asset) : dict :=
  if skipped names (asset_name a) then d
  else dict_update (asset_id a) (asset_name a) d.

(** Lines 140-145: the dictionary built from the release's assets. *)
Definition assets_to_download (names : option (list string)) (assets : list asset) : dict :=
  foldl (select_step names) [] assets.

(** The entry an asset contributes to the dictionary. *)
Definition item_of (a : asset) : Z * string := (asset_id a, asset_name a).

(** ** Requests, responses and the outside world *)

(** A Python [bytes] value: a chunk of a body, or the content of a file. *)
Definition bytes := list Byte.byte.

(** A call [requests.get(url, headers=..., stream=...)]. *)
Record request := Request {
  req_url : string;
  req_headers : list (string * string);
  req_stream : bool
}.

(** The exceptions the procedure can meet.  [ConnectionError] stands for
    [requests.exceptions.ConnectionError] and its subclasses,
    [RequestException] for every other exception of [requests]. *)
Inductive exception :=
  | ConnectionError
  | RequestException
  | JSONDecodeError
  | KeyError (key : string)
  | OSError
  | UnboundLocalError (var : string).

(** What [r.json()] makes of a response body: not JSON at all, or an
    object with or without the key ["assets"].  The entries of the
    array are taken to be objects with an integer ["id"] and a string
    ["name"], as the server sends them. *)
Inductive json_body :=
  | NotJson
  | JsonObject (assets : option (list asset)).

(** A [requests.Response]: the status, the decoded body, the chunks
    that iterating over the response yields, and the exception the
    iteration raises after the last of them when the stream breaks. *)
Record response := Response {
  status_code : Z;
  json : json_body;
  iter_content : list bytes;
  interrupted : option exception
}.

(** Everything outside the process: the server (and the network in
    front of it), the working directory, and which paths [open(_, "wb")]
    accepts. *)
Record world := World {
  http : request → exception + response;
  getcwd : string;
  writable : string → bool
}.

(** What a run changes: the files on disk, and the requests sent so far.
    A file is known by the path string handed to [open]: two spellings
    of one file are two keys. *)
Record state := State {
  files : gmap string bytes;
  sent : list request
}.

(** The dictionary [result] handed to [exit_json] and [fail_json]. *)
Record result := Result {
  changed : bool;
  msg : string
}.

(** The result the procedure starts from: [changed] is [False] and the
    message is empty. *)
Definition initial_result : result := {| changed := false; msg := EmptyString |}.

(** [result["msg"] = m] *)
Definition set_msg (m : string) (r : result) : result :=
  {| changed := changed r; msg := m |}.

(** How a run ends: [exit_json] and [fail_json] leave the process with
    the result they are given; an exception nobody catches leaves it
    with a traceback. *)
Inductive stop :=
  | ExitJson (r : result)
  | FailJson (r : result)
  | Uncaught (e : exception).

(** ** The monad of the procedure: state, and early termination *)

Definition M (A : Type) : Type := state → (stop + A) * state.

Global Instance M_ret : MRet M := λ A a s, (inr a, s).

Global Instance M_bind : MBind M := λ A B f m s,
  match m s with
  | (inl h, s') => (inl h, s')
  | (inr a, s') => f a s'
  end.

Definition halt {A} (h : stop) : M A := λ s, (inl h, s).

Definition exit_json {A} (r : result) : M A := halt (ExitJson r).
Definition fail_json {A} (r : result) : M A := halt (FailJson r).
Definition raise {A} (e : exception) : M A := halt (Uncaught e).

(** [try: m except requests.exceptions.ConnectionError: handler] *)
Definition except_ConnectionError {A} (m handler : M A) : M A := λ s,
  match m s with
  | (inl (Uncaught ConnectionError), s') => handler s'
  | other => other
  end.

(** [for x in items: acc = body(acc, x)] *)
Fixpoint for_each {A B} (body : B → A → M B) (acc : B) (items : list A) : M B :=
  match items with
  | [] => mret acc
  | x :: rest => acc' ← body acc x; for_each body acc' rest
  end.

(** [requests.get]: the request goes out, the world answers. *)
Definition requests_get (w : world) (rq : request) : M response := λ s,
  let s' := {| files := files s; sent := sent s ++ [rq] |} in
  match http w rq with
  | inl e => (inl (Uncaught e), s')
  | inr r => (inr r, s')
  end.

(** [open(path, "wb")]: creates the file, or empties the one there is. *)
Definition open_wb (w : world) (path : string) : M unit := λ s,
  if writable w path
  then (inr (), {| files := <[path := []]> (files s); sent := sent s |})
  else (inl (Uncaught OSError), s).

(** [f.write(chunk)] *)
Definition write (path : string) (chunk : bytes) : M unit := λ s,
  (inr (), {| files := alter (λ c, c ++ chunk) path (files s); sent := sent s |}).

(** [for chunk in r: body(chunk)] *)
Definition iterate (r : response) (body : bytes → M unit) : M unit :=
  _ ← for_each (λ _ chunk, body chunk) () (iter_content r);
  match interrupted r with
  | Some e => raise e
  | None => mret ()
  end.

(** ** Strings of the procedure *)

Fixpoint endswith_sep (s : string) : bool :=
  match s with
  | EmptyString => false
  | String c EmptyString => bool_decide (c = "/"%char)
  | String _ s' => endswith_sep s'
  end.

(** [os.path.join(a, b)] on POSIX. *)
Definition path_join (a b : string) : string :=
  if String.prefix "/" b then b
  else if bool_decide (a = EmptyString) || endswith_sep a then a +:+ b
  else a +:+ "/" +:+ b.

Definition github_endpoint_url (p : params) : string :=
  url p +:+ "/api/v3/repos/" +:+ owner p +:+ "/" +:+ repo p.

Definition release_url (p : params) : string :=
  match tag p with
  | None => github_endpoint_url p +:+ "/releases/latest"
  | Some t => github_endpoint_url p +:+ "/releases/tags/" +:+ t
  end.

Definition asset_url (p : params) (id : Z) : string :=
  github_endpoint_url p +:+ "/releases/assets/" +:+ pretty id.

Definition release_request (p : params) : request :=
  {| req_url := release_url p;
     req_headers := [("Accept", "application/vnd.github+json");
                     ("Authorization", "token " +:+ token p)];
     req_stream := false |}.

Definition asset_request (p : params) (id : Z) : request :=
  {| req_url := asset_url p id;
     req_headers := [("Accept", "application/octet-stream");
                     ("Authorization", "token " +:+ token p)];
     req_stream := true |}.

(** ** The procedure *)

(** Lines 113-135, under the comment [# get release]. *)
Definition get_release (p : params) (w : world) (res : result) : M response :=
  r ← except_ConnectionError
        (requests_get w (release_request p))
        (fail_json (set_msg ("Failed to connect " +:+ release_url p) res));
  if decide (status_code r = 401) then fail_json (set_msg "401 Unauthorized" res)
  else if decide (status_code r = 404) then fail_json (set_msg "404 Not Found" res)
  else mret r.

(** Lines 138-145, under the comment [# get assets]. *)
Definition get_assets (p : params) (r : response) : M dict :=
  match json r with
  | NotJson => raise JSONDecodeError
  | JsonObject None => raise (KeyError "assets")
  | JsonObject (Some assets) => mret (assets_to_download (asset_names p) assets)
  end.

(** [os.getcwd() if output_path is None else output_path] *)
Definition destination (p : params) (w : world) : string :=
  match output_path p with
  | None => getcwd w
  | Some o => o
  end.

(** Lines 152-167: the body of the loop over [assets_to_download.items()].
    The variable [parent_dir] is bound here and read after the loop. *)
Definition download (p : params) (w : world) (res : result)
    (_ : option string) (item : Z * string) : M (option string) :=
  let '(id, name) := item in
  r ← requests_get w (asset_request p id);
  if decide (status_code r ≠ 200)
  then fail_json (set_msg ("Failed to download " +:+ name) res)
  else
    let parent_dir := destination p w in
    let path := path_join parent_dir name in
    _ ← open_wb w path;
    _ ← iterate r (write path);
    mret (Some parent_dir).

Definition run_module (p : params) (w : world) : M Empty_set :=
  let res := initial_result in
  _ ← (if check_mode p then exit_json res else mret ());
  r ← get_release p w res;
  items ← get_assets p r;
  _ ← (if decide (length items = 0%nat)
       then fail_json (set_msg "There is no asset to download" res)
       else mret ());
  parent_dir ← for_each (download p w res) None items;
  match parent_dir with
  | None => raise (UnboundLocalError "parent_dir")
  | Some dir => exit_json (set_msg ("Completed to download assets on " +:+ dir) res)
  end.

(** ** Vocabulary of the statements *)

(** The run is not a check-mode run, the release request is answered, the
    status is neither 401 nor 404, and the body is a JSON object whose
    ["assets"] are [assets]. *)
Definition release_listed (p : params) (w : world) (assets : list asset) : Prop :=
  check_mode p = false
  ∧ ∃ r, http w (release_request p) = inr r
         ∧ status_code r ≠ 401 ∧ status_code r ≠ 404
         ∧ json r = JsonObject (Some assets).

(** The download of one item goes through: the request is answered
    with status 200, the file can be opened, the stream does not break. *)
Definition download_ok (p : params) (w : world) (item : Z * string) : Prop :=
  match http w (asset_request p item.1) with
  | inl _ => False
  | inr r =>
      status_code r = 200
      ∧ writable w (path_join (destination p w) item.2) = true
      ∧ interrupted r = None
  end.

(** The bytes the server sends for an asset. *)
Definition received (p : params) (w : world) (id : Z) : bytes :=
  match http w (asset_request p id) with
  | inl _ => []
  | inr r => mjoin (iter_content r)
  end.

(** The disk after one successful download. *)
Definition store (p : params) (w : world)
    (fs : gmap string bytes) (item : Z * string) : gmap string bytes :=
  <[path_join (destination p w) item.2 := received p w item.1]> fs.

(** The state after the successful downloads of [items], in order. *)
Definition downloaded (p : params) (w : world) (items : dict) (s : state) : state :=
  {| files := foldl (store p w) (files s) items;
     sent := sent s ++ (asset_request p <$> items.*1) |}.

(** The state once the release request has gone out. *)
Definition asked (p : params) (s : state) : state :=
  {| files := files s; sent := sent s ++ [release_request p] |}.

(** The dictionary the run iterates over, when it gets that far. *)
Definition selection (p : params) (w : world) : dict :=
  match http w (release_request p) with
  | inr r =>
      match json r with
      | JsonObject (Some assets) => assets_to_download (asset_names p) assets
      | _ => []
      end
  | inl _ => []
  end.

(** The ways a run can end. *)
Inductive reported (p : params) (w : world) : stop → Prop :=
  | reported_check_mode :
      reported p w (ExitJson {| changed := false; msg := EmptyString |})
  | reported_connect :
      reported p w (FailJson {| changed := false;
                                msg := "Failed to connect " +:+ release_url p |})
  | reported_401 :
      reported p w (FailJson {| changed := false; msg := "401 Unauthorized" |})
  | reported_404 :
      reported p w (FailJson {| changed := false; msg := "404 Not Found" |})
  | reported_no_asset :
      reported p w (FailJson {| changed := false;
                                msg := "There is no asset to download" |})
  | reported_download id name :
      (id, name) ∈ selection p w →
      reported p w (FailJson {| changed := false;
                                msg := "Failed to download " +:+ name |})
  | reported_completed :
      reported p w (ExitJson {| changed := false;
                                msg := "Completed to download assets on "
                                       +:+ destination p w |})
  | reported_uncaught e :
      reported p w (Uncaught e).

(** The value of [parent_dir] after the downloads of [items]. *)
Definition bound_after (p : params) (w : world)
    (acc : option string) (items : dict) : option string :=
  match items with
  | [] => acc
  | _ => Some (destination p w)
  end.

(** What is left of the run once the loop has been entered. *)
Definition finish (run : (stop + option string) * state) : (stop + Empty_set) * state :=
  match run with
  | (inl h, s') => (inl h, s')
  | (inr None, s') => (inl (Uncaught (UnboundLocalError "parent_dir")), s')
  | (inr (Some dir), s') =>
      (inl (ExitJson (set_msg ("Completed to download assets on " +:+ dir)
                              initial_result)), s')
  end.

(** The path a selected item is written to. *)
Definition path_of (p : params) (w : world) (item : Z * string) : string :=
  path_join (destination p w) item.2.

(** Two runs end alike: same end of the run, same files. *)
Definition alike {A} (x y : (stop + A) * state) : Prop :=
  x.1 = y.1 ∧ files x.2 = files y.2.

(** The same parameters with another token. *)
Definition with_token (t : string) (p : params) : params :=
  {| url := url p; owner := owner p; repo := repo p; token := t;
     tag := tag p; output_path := output_path p;
     asset_names := asset_names p; check_mode := check_mode p |}.

(** ** A server for the examples *)

Definition two_assets : list asset := [Asset 1 "a.tar.gz"; Asset 2 "b.zip"].

Definition example_params (names : option (list string)) : params :=
  {| url := "https://github.example.com";
     owner := "eub";
     repo := "something-magnificent";
     token := "token-hard-to-guess";
     tag := None;
     output_path := None;
     asset_names := names;
     check_mode := false |}.

Definition example_api : string :=
  "https://github.example.com/api/v3/repos/eub/something-magnificent".

(** A server that answers the release request with [release] and the
    requests for assets 1 and 2 with [first] and [second]. *)
Definition example_http (release first second : exception + response)
    (rq : request) : exception + response :=
  if bool_decide (req_url rq = example_api +:+ "/releases/latest") then release
  else if bool_decide (req_url rq = example_api +:+ "/releases/assets/1") then first
  else if bool_decide (req_url rq = example_api +:+ "/releases/assets/2") then second
  else inl RequestException.

Definition example_world (release first second : exception + response) : world :=
  {| http := example_http release first second;
     getcwd := "/home/eub";
     writable := λ _, true |}.

Definition release_response (status : Z) : exception + response :=
  inr {| status_code := status; json := JsonObject (Some two_assets);
         iter_content := []; interrupted := None |}.

Definition asset_response (status : Z) (content : list bytes) : exception + response :=
  inr {| status_code := status; json := NotJson;
         iter_content := content; interrupted := None |}.

Definition first_content : list bytes := [[Byte.x1f; Byte.x8b]; [Byte.x08]].
Definition second_content : list bytes := [[Byte.x50; Byte.x4b]].

Definition empty_state : state := {| files := ∅; sent := [] |}.

(** The example's world with a say on which paths can be opened. *)
Definition guarded_world (release first second : exception + response)
    (ok : string → bool) : world :=
  {| http := example_http release first second;
     getcwd := "/home/eub";
     writable := ok |}.

(** A download answered with status 200 whose stream breaks with [e]
    after [content]. *)
Definition broken_response (content : list bytes) (e : exception)
    : exception + response :=
  inr {| status_code := 200; json := NotJson;
         iter_content := content; interrupted := Some e |}.

(** A response that lists the same id twice. *)
Definition repeated_id : list asset :=
  [Asset 1 "a.tar.gz"; Asset 2 "b.zip"; Asset 1 "c.txt"].

(** A disk that holds a file of the user's before the run. *)
Definition disk_before : state :=
  {| files := {[ "/home/eub/notes.txt" := [Byte.x68; Byte.x69] ]}; sent := [] |}.

(** The example's parameters in check mode. *)
Definition example_check_params : params :=
  {| url := "https://github.example.com";
     owner := "eub";
     repo := "something-magnificent";
     token := "token-hard-to-guess";
     tag := None;
     output_path := None;
     asset_names := None;
     check_mode := true |}.

(** A release whose only asset has an absolute name. *)
Definition absolute_release : exception + response :=
  inr {| status_code := 200;
         json := JsonObject (Some [Asset 1 "/tmp/setup.sh"]);
         iter_content := []; interrupted := None |}.

(** Only [a.tar.gz] can be opened in the working directory. *)
Definition only_first (path : string) : bool :=
  bool_decide (path = "/home/eub/a.tar.gz").

(** ** Selection *)

Section Selection.

Implicit Types (d : dict) (l : list asset) (names : option (list string)).

Lemma dict_update_fresh k v d :
  k ∉ d.*1 → dict_update k v d = d ++ [(k, v)].
Proof.
  induction d as [|[k' v'] d IH]; simpl; intros Hk; [done|].
  apply not_elem_of_cons in Hk as [Hne Hk].
  rewrite decide_False by done. by rewrite IH.
Qed.

Lemma dict_update_keys k v d :
  k ∈ d.*1 → (dict_update k v d).*1 = d.*1.
Proof.
  induction d as [|[k' v'] d IH]; simpl; intros Hk.
  - by apply elem_of_nil in Hk.
  - destruct (decide (k = k')) as [->|Hne]; [done|].
    simpl. f_equal. apply IH.
    apply elem_of_cons in Hk as [?|?]; [congruence|done].
Qed.

Lemma dict_update_NoDup k v d :
  NoDup d.*1 → NoDup (dict_update k v d).*1.
Proof.
  intros Hnd. destruct (decide (k ∈ d.*1)) as [Hin|Hfresh].
  - by rewrite dict_update_keys.
  - rewrite dict_update_fresh, fmap_app by done.
    apply NoDup_app. split_and!; [done| |apply NoDup_singleton].
    intros x Hx Hx'. apply list_elem_of_singleton in Hx'. by subst.
Qed.

(** Whatever the response holds, the dictionary has one entry per id:
    no asset is requested twice. *)
Lemma assets_to_download_NoDup names l :
  NoDup (assets_to_download names l).*1.
Proof.
  unfold assets_to_download.
  assert (∀ d, NoDup d.*1 → NoDup (foldl (select_step names) d l).*1) as Hinv.
  { induction l as [|a l IH]; intros d Hnd; simpl; [done|].
    apply IH. unfold select_step.
    destruct (skipped names (asset_name a)); [done|by apply dict_update_NoDup]. }
  apply Hinv, NoDup_nil_2.
Qed.

(** When the kept assets have pairwise distinct ids, each of them is
    appended. *)
Lemma select_foldl_distinct names l d :
  NoDup (d.*1 ++ (asset_id <$> filter (λ a, skipped names (asset_name a) = false) l)) →
  foldl (select_step names) d l
  = d ++ (item_of <$> filter (λ a, skipped names (asset_name a) = false) l).
Proof.
  revert d. induction l as [|a l IH]; intros d Hnd; simpl.
  - by rewrite app_nil_r.
  - unfold select_step at 2.
    rewrite filter_cons in Hnd |- *.
    destruct (skipped names (asset_name a)) eqn:Hs.
    + rewrite decide_False in Hnd |- * by done. by apply IH.
    + rewrite decide_True in Hnd |- * by done.
      rewrite fmap_cons in Hnd.
      assert (asset_id a ∉ d.*1) as Hfresh.
      { apply NoDup_app in Hnd as (_ & Hdis & _).
        intros Hin. apply (Hdis _ Hin). by left. }
      rewrite dict_update_fresh by done.
      rewrite IH.
      * rewrite fmap_cons. by rewrite <- app_assoc.
      * rewrite fmap_app. simpl. rewrite <- app_assoc. simpl. done.
Qed.

(** The dictionary only depends on which asset names the filter holds. *)
Lemma select_foldl_ext names names' l d :
  (∀ a, a ∈ l → skipped names (asset_name a) = skipped names' (asset_name a)) →
  foldl (select_step names) d l = foldl (select_step names') d l.
Proof.
  revert d. induction l as [|a l IH]; intros d Hext; simpl; [done|].
  unfold select_step at 2 4. rewrite (Hext a) by by left.
  apply IH. intros b Hb. apply Hext. by right.
Qed.

(** Filter entries only matter through the asset names they hold. *)
Lemma assets_to_download_ext (f f' : list string) l :
  (∀ a, a ∈ l → asset_name a ∈ f ↔ asset_name a ∈ f') →
  assets_to_download (Some f) l = assets_to_download (Some f') l.
Proof.
  intros Hiff. apply select_foldl_ext. intros a Ha. simpl. f_equal.
  apply bool_decide_ext, Hiff, Ha.
Qed.

End Selection.

Example select_all :
  assets_to_download None two_assets = [(1, "a.tar.gz"); (2, "b.zip")].
Proof. reflexivity. Qed.

Example select_one :
  assets_to_download (Some ["a.tar.gz"]) two_assets = [(1, "a.tar.gz")].
Proof. reflexivity. Qed.

(** Matching is string equality: another case or a pattern selects nothing. *)
Example select_case_sensitive :
  assets_to_download (Some ["A.TAR.GZ"; "*.zip"]) two_assets = [].
Proof. reflexivity. Qed.

(** Two assets under one id: the dictionary is keyed by the id, so they
    collapse into one entry, at the position of the first and with the
    name of the last. *)
Lemma assets_to_download_same_id :
  assets_to_download None [Asset 1 "a.tar.gz"; Asset 1 "b.zip"] = [(1, "b.zip")]
  ∧ ¬ (∀ l, assets_to_download None l = item_of <$> l).
Proof.
  split; [reflexivity|].
  intros H. specialize (H [Asset 1 "a.tar.gz"; Asset 1 "b.zip"]). discriminate H.
Qed.

(** The assets the filter keeps, in the order of the response. *)
Lemma kept_filter (f : list string) (l : list asset) :
  filter (λ a, skipped (Some f) (asset_name a) = false) l
  = filter (λ a, asset_name a ∈ f) l.
Proof.
  apply list_filter_iff. intros a. simpl.
  rewrite negb_false_iff. apply bool_decide_eq_true.
Qed.

Lemma kept_all (l : list asset) :
  filter (λ a, skipped None (asset_name a) = false) l = l.
Proof.
  induction l as [|a l IH]; [done|].
  rewrite filter_cons_True by done. by f_equal.
Qed.

(** The dictionary lists the kept assets one by one only when their ids
    are pairwise distinct: the hypothesis of the next theorem cannot be
    dropped. *)
Lemma assets_to_download_exact names l :
  assets_to_download names l
  = item_of <$> filter (λ a, skipped names (asset_name a) = false) l →
  NoDup (asset_id <$> filter (λ a, skipped names (asset_name a) = false) l).
Proof.
  intros Heq. pose proof (assets_to_download_NoDup names l) as Hnd.
  rewrite Heq, <- list_fmap_compose in Hnd. exact Hnd.
Qed.

(** C1: for every release asset list in which an id stands for one
    asset (pairwise distinct ids among the assets that are kept), the
    dictionary built without a filter holds exactly the assets of the
    response, in their original order; with a filter it holds exactly
    the assets whose name is equal to an entry of the filter, in their
    original order; and, on any list, a filter entry that is the name of
    no asset changes nothing, wherever it stands in the filter.  The
    selection is a total function: no filter makes it fail. *)
Theorem assets_to_download_distinct_ids (l : list asset) :
  (NoDup (asset_id <$> l) →
   assets_to_download None l = item_of <$> l)
  ∧ (∀ f : list string,
       NoDup (asset_id <$> filter (λ a, asset_name a ∈ f) l) →
       assets_to_download (Some f) l
       = item_of <$> filter (λ a, asset_name a ∈ f) l)
  ∧ (∀ (f1 f2 : list string) (x : string),
       x ∉ asset_name <$> l →
       assets_to_download (Some (f1 ++ x :: f2)) l
       = assets_to_download (Some (f1 ++ f2)) l).
Proof.
  split_and!.
  - intros Hnd. unfold assets_to_download.
    rewrite select_foldl_distinct by by rewrite kept_all.
    by rewrite kept_all.
  - intros f Hnd. unfold assets_to_download.
    rewrite select_foldl_distinct by by rewrite kept_filter.
    by rewrite kept_filter.
  - intros f1 f2 x Hx. apply assets_to_download_ext. intros a Ha.
    rewrite !elem_of_app, elem_of_cons. split; [|tauto].
    intros [?|[Heq|?]]; [tauto| |tauto].
    destruct Hx. apply list_elem_of_fmap. eauto.
Qed.

(** The example's release without a filter; a release in which only an
    asset the filter drops shares an id with a kept one; and a stray
    filter entry against a release that repeats an id. *)
Lemma assets_to_download_distinct_ids_witness :
  assets_to_download None two_assets = [(1, "a.tar.gz"); (2, "b.zip")]
  ∧ assets_to_download (Some ["a.tar.gz"; "c.txt"])
      [Asset 1 "a.tar.gz"; Asset 1 "b.zip"; Asset 2 "c.txt"]
    = [(1, "a.tar.gz"); (2, "c.txt")]
  ∧ assets_to_download (Some (["a.tar.gz"] ++ "z.bin" :: ["c.txt"])) repeated_id
    = assets_to_download (Some (["a.tar.gz"] ++ ["c.txt"])) repeated_id.
Proof.
  split_and!.
  - refine (proj1 (assets_to_download_distinct_ids two_assets) _).
    apply (bool_decide_unpack _). vm_compute. exact I.
  - refine (proj1 (proj2 (assets_to_download_distinct_ids
                            [Asset 1 "a.tar.gz"; Asset 1 "b.zip"; Asset 2 "c.txt"]))
              ["a.tar.gz"; "c.txt"] _).
    apply (bool_decide_unpack _). vm_compute. exact I.
  - refine (proj2 (proj2 (assets_to_download_distinct_ids repeated_id))
              ["a.tar.gz"] ["c.txt"] "z.bin" _).
    apply (bool_decide_unpack _). vm_compute. exact I.
Defined.

(** ** The monad *)

Section Monad.

Context {A B : Type}.

Lemma bind_continue (m : M A) (f : A → M B) s a s' :
  m s = (inr a, s') → (m ≫= f) s = f a s'.
Proof. unfold mbind, M_bind. by intros ->. Qed.

Lemma bind_halt (m : M A) (f : A → M B) s h s' :
  m s = (inl h, s') → (m ≫= f) s = (inl h, s').
Proof. unfold mbind, M_bind. by intros ->. Qed.

End Monad.

Lemma string_app_assoc (a b c : string) : (a +:+ b) +:+ c = a +:+ b +:+ c.
Proof.
  induction a as [|x a IH]; [done|].
  change (String x ((a +:+ b) +:+ c) = String x (a +:+ b +:+ c)).
  by f_equal.
Qed.

(** ** Writing a file *)

Lemma write_chunks path (chunks : list bytes) (c : bytes) fs rqs :
  for_each (λ _ chunk, write path chunk) () chunks
    {| files := <[path := c]> fs; sent := rqs |}
  = (inr (), {| files := <[path := c ++ mjoin chunks]> fs; sent := rqs |}).
Proof.
  revert c. induction chunks as [|chunk chunks IH]; intros c; simpl.
  - by rewrite app_nil_r.
  - erewrite bind_continue; last first.
    { unfold write. simpl. by rewrite alter_insert_eq. }
    rewrite IH. by rewrite <- app_assoc.
Qed.

(** Iterating over the response appends what it yields, in order. *)
Lemma iterate_write path r (c : bytes) fs rqs :
  iterate r (write path) {| files := <[path := c]> fs; sent := rqs |}
  = (match interrupted r with
     | Some e => inl (Uncaught e)
     | None => inr ()
     end,
     {| files := <[path := c ++ mjoin (iter_content r)]> fs; sent := rqs |}).
Proof.
  unfold iterate. erewrite bind_continue by apply write_chunks.
  by destruct (interrupted r).
Qed.

(** ** One download *)

(** The loop body as a function of the world's answers. *)
Lemma download_step p w res acc id name s :
  download p w res acc (id, name) s
  = let s1 := {| files := files s; sent := sent s ++ [asset_request p id] |} in
    match http w (asset_request p id) with
    | inl e => (inl (Uncaught e), s1)
    | inr r =>
        if decide (status_code r ≠ 200)
        then (inl (FailJson (set_msg ("Failed to download " +:+ name) res)), s1)
        else if writable w (path_join (destination p w) name)
        then (match interrupted r with
              | Some e => inl (Uncaught e)
              | None => inr (Some (destination p w))
              end,
              {| files := store p w (files s) (id, name); sent := sent s1 |})
        else (inl (Uncaught OSError), s1)
    end.
Proof.
  unfold download, store, received. simpl.
  destruct (http w (asset_request p id)) as [e|r] eqn:Hget.
  - apply bind_halt. unfold requests_get. by rewrite Hget.
  - erewrite bind_continue; last by (unfold requests_get; rewrite Hget).
    destruct (decide (status_code r ≠ 200)); [done|].
    destruct (writable w _) eqn:Hw.
    + erewrite bind_continue; last by (unfold open_wb; simpl; rewrite Hw).
      simpl. destruct (interrupted r) as [e|] eqn:Hint.
      * apply bind_halt. by rewrite iterate_write, Hint.
      * erewrite bind_continue; [done|]. by rewrite iterate_write, Hint.
    + apply bind_halt. unfold open_wb. simpl. by rewrite Hw.
Qed.

Lemma download_ok_step p w res acc item s :
  download_ok p w item →
  download p w res acc item s
  = (inr (Some (destination p w)), downloaded p w [item] s).
Proof.
  destruct item as [id name]. rewrite download_step.
  unfold download_ok. simpl. intros Hok.
  destruct (http w (asset_request p id)) as [e|r]; [done|].
  destruct Hok as (Hst & Hw & Hint).
  rewrite decide_False by (intros Hne; by apply Hne).
  by rewrite Hw, Hint.
Qed.

(** A download that does not go through ends the run. *)
Lemma download_not_ok_step p w res acc item s :
  ¬ download_ok p w item →
  ∃ h s', download p w res acc item s = (inl h, s').
Proof.
  destruct item as [id name]. rewrite download_step.
  unfold download_ok. simpl. intros Hno.
  destruct (http w (asset_request p id)) as [e|r]; [eauto|].
  destruct (decide (status_code r ≠ 200)) as [|Hst]; [eauto|].
  destruct (writable w _); [|eauto].
  destruct (interrupted r); [eauto|].
  destruct Hno. split_and!; [|done..].
  destruct (decide (status_code r = 200)); [done|by destruct Hst].
Qed.

(** ** The loop *)

Lemma downloaded_nil p w s : downloaded p w [] s = s.
Proof. destruct s. unfold downloaded. simpl. by rewrite app_nil_r. Qed.

Lemma downloaded_cons p w item items s :
  downloaded p w (item :: items) s = downloaded p w items (downloaded p w [item] s).
Proof. unfold downloaded. simpl. by rewrite <- app_assoc. Qed.

(** The loop runs through every prefix whose downloads go through. *)
Lemma for_each_download_ok p w res pre rest acc s :
  Forall (download_ok p w) pre →
  for_each (download p w res) acc (pre ++ rest) s
  = for_each (download p w res) (bound_after p w acc pre) rest (downloaded p w pre s).
Proof.
  intros Hok. revert acc s.
  induction Hok as [|item pre Hitem _ IH]; intros acc s; simpl.
  - by rewrite downloaded_nil.
  - erewrite bind_continue by by apply download_ok_step.
    rewrite IH, <- downloaded_cons. by destruct pre.
Qed.

(** ** The release request *)

Lemma get_release_step p w res s :
  get_release p w res s
  = match http w (release_request p) with
    | inl ConnectionError =>
        (inl (FailJson (set_msg ("Failed to connect " +:+ release_url p) res)),
         asked p s)
    | inl e => (inl (Uncaught e), asked p s)
    | inr r =>
        if decide (status_code r = 401)
        then (inl (FailJson (set_msg "401 Unauthorized" res)), asked p s)
        else if decide (status_code r = 404)
        then (inl (FailJson (set_msg "404 Not Found" res)), asked p s)
        else (inr r, asked p s)
    end.
Proof.
  unfold get_release.
  destruct (http w (release_request p)) as [e|r] eqn:Hget.
  - destruct e; apply bind_halt; unfold except_ConnectionError, requests_get;
      by rewrite Hget.
  - erewrite bind_continue; last first.
    { unfold except_ConnectionError, requests_get. by rewrite Hget. }
    by repeat case_decide.
Qed.

Lemma run_module_listed p w s assets :
  release_listed p w assets →
  run_module p w s
  = match assets_to_download (asset_names p) assets with
    | [] => (inl (FailJson (set_msg "There is no asset to download" initial_result)),
             asked p s)
    | items => finish (for_each (download p w initial_result) None items (asked p s))
    end.
Proof.
  intros (Hcheck & r & Hget & H401 & H404 & Hjson).
  unfold run_module. rewrite Hcheck.
  erewrite bind_continue by done.
  erewrite bind_continue; last first.
  { rewrite get_release_step, Hget. by rewrite !decide_False. }
  erewrite bind_continue; last first.
  { unfold get_assets. by rewrite Hjson. }
  destruct (assets_to_download _ _) as [|item items] eqn:Hsel; [done|].
  erewrite bind_continue by done.
  unfold mbind, M_bind, finish.
  by destruct (for_each _ _ _ _) as [[h|[dir|]] s'].
Qed.

(** ** Failures of the release request *)

(** C3: when the release request cannot connect, the run fails with
    "Failed to connect " followed by the URL of that request; when it is
    answered with status 401 the run fails with "401 Unauthorized", and
    with status 404 with "404 Not Found".  In each case the release
    request is the only request sent (no retry, no download) and the
    files are untouched. *)
Theorem release_request_failures (p : params) (w : world) (s : state) :
  check_mode p = false →
  (http w (release_request p) = inl ConnectionError →
   run_module p w s
   = (inl (FailJson {| changed := false;
                       msg := "Failed to connect " +:+ req_url (release_request p) |}),
      {| files := files s; sent := sent s ++ [release_request p] |}))
  ∧ (∀ r, http w (release_request p) = inr r → status_code r = 401 →
     run_module p w s
     = (inl (FailJson {| changed := false; msg := "401 Unauthorized" |}),
        {| files := files s; sent := sent s ++ [release_request p] |}))
  ∧ (∀ r, http w (release_request p) = inr r → status_code r = 404 →
     run_module p w s
     = (inl (FailJson {| changed := false; msg := "404 Not Found" |}),
        {| files := files s; sent := sent s ++ [release_request p] |})).
Proof.
  intros Hcheck. unfold run_module. rewrite Hcheck.
  erewrite bind_continue by done.
  split_and!.
  - intros Hget. apply bind_halt. by rewrite get_release_step, Hget.
  - intros r Hget Hst. apply bind_halt.
    rewrite get_release_step, Hget. by rewrite decide_True.
  - intros r Hget Hst. apply bind_halt.
    rewrite get_release_step, Hget.
    rewrite decide_False by (rewrite Hst; done). by rewrite decide_True.
Qed.

(** C4: whatever status other than 401 and 404 the release request is
    answered with, [get_release] hands the response on without a
    failure, and the body is decoded: the assets are selected when there
    are any, and an exception of the decoding escapes otherwise. *)
Theorem get_release_other_status (p : params) (w : world) (res : result)
    (s : state) (r : response) :
  http w (release_request p) = inr r →
  status_code r ≠ 401 →
  status_code r ≠ 404 →
  get_release p w res s
  = (inr r, {| files := files s; sent := sent s ++ [release_request p] |})
  ∧ (get_release p w res ≫= get_assets p) s
    = (match json r with
       | NotJson => inl (Uncaught JSONDecodeError)
       | JsonObject None => inl (Uncaught (KeyError "assets"))
       | JsonObject (Some assets) =>
           inr (assets_to_download (asset_names p) assets)
       end,
       {| files := files s; sent := sent s ++ [release_request p] |}).
Proof.
  intros Hget H401 H404.
  assert (get_release p w res s = (inr r, asked p s)) as Hrel.
  { rewrite get_release_step, Hget. by rewrite !decide_False. }
  split; [done|].
  erewrite bind_continue by done.
  unfold get_assets. by destruct (json r) as [|[assets|]].
Qed.

(** ** The empty selection *)

(** C5: when the selection is empty, the run fails with "There is no
    asset to download"; the release request is the only request sent and
    the files are untouched. *)
Theorem no_asset_to_download (p : params) (w : world) (s : state)
    (assets : list asset) :
  release_listed p w assets →
  assets_to_download (asset_names p) assets = [] →
  run_module p w s
  = (inl (FailJson {| changed := false; msg := "There is no asset to download" |}),
     {| files := files s; sent := sent s ++ [release_request p] |}).
Proof.
  intros Hlisted Hsel. rewrite (run_module_listed _ _ _ _ Hlisted). by rewrite Hsel.
Qed.

(** A response with status 401 to the example's release request. *)
Lemma release_request_failures_witness :
  run_module (example_params None)
    (example_world (inl ConnectionError) (inl ConnectionError) (inl ConnectionError))
    empty_state
  = (inl (FailJson {| changed := false;
                      msg := "Failed to connect " +:+ example_api +:+ "/releases/latest" |}),
     {| files := ∅; sent := [release_request (example_params None)] |})
  ∧ run_module (example_params None)
      (example_world (release_response 401) (inl ConnectionError) (inl ConnectionError))
      empty_state
    = (inl (FailJson {| changed := false; msg := "401 Unauthorized" |}),
       {| files := ∅; sent := [release_request (example_params None)] |})
  ∧ run_module (example_params None)
      (example_world (release_response 404) (inl ConnectionError) (inl ConnectionError))
      empty_state
    = (inl (FailJson {| changed := false; msg := "404 Not Found" |}),
       {| files := ∅; sent := [release_request (example_params None)] |}).
Proof.
  split_and!.
  - exact (proj1 (release_request_failures (example_params None)
                    (example_world (inl ConnectionError) (inl ConnectionError)
                                   (inl ConnectionError))
                    empty_state eq_refl) eq_refl).
  - exact (proj1 (proj2 (release_request_failures (example_params None)
                    (example_world (release_response 401) (inl ConnectionError)
                                   (inl ConnectionError))
                    empty_state eq_refl)) _ eq_refl eq_refl).
  - exact (proj2 (proj2 (release_request_failures (example_params None)
                    (example_world (release_response 404) (inl ConnectionError)
                                   (inl ConnectionError))
                    empty_state eq_refl)) _ eq_refl eq_refl).
Defined.

(** A response with status 500 that carries a release all the same. *)
Lemma get_release_other_status_witness :
  (get_release (example_params None)
     (example_world (release_response 500) (inl ConnectionError) (inl ConnectionError))
     initial_result ≫= get_assets (example_params None)) empty_state
  = (inr [(1, "a.tar.gz"); (2, "b.zip")],
     {| files := ∅; sent := [release_request (example_params None)] |}).
Proof.
  refine (proj2 (get_release_other_status (example_params None)
            (example_world (release_response 500) (inl ConnectionError)
                           (inl ConnectionError))
            initial_result empty_state
            {| status_code := 500; json := JsonObject (Some two_assets);
               iter_content := []; interrupted := None |}
            eq_refl _ _));
    intros H; discriminate H.
Defined.

(** A filter that names no asset of the example's release. *)
Lemma no_asset_to_download_witness :
  run_module (example_params (Some ["c.txt"]))
    (example_world (release_response 200) (inl ConnectionError) (inl ConnectionError))
    empty_state
  = (inl (FailJson {| changed := false; msg := "There is no asset to download" |}),
     {| files := ∅; sent := [release_request (example_params (Some ["c.txt"]))] |}).
Proof.
  refine (no_asset_to_download (example_params (Some ["c.txt"]))
            (example_world (release_response 200) (inl ConnectionError)
                           (inl ConnectionError))
            empty_state two_assets _ eq_refl).
  split; [reflexivity|].
  eexists. split; [reflexivity|].
  split_and!; [intros H; discriminate H | intros H; discriminate H | reflexivity].
Defined.

(** ** The downloads *)

Lemma run_module_loop p w s assets :
  release_listed p w assets →
  assets_to_download (asset_names p) assets ≠ [] →
  run_module p w s
  = finish (for_each (download p w initial_result) None
              (assets_to_download (asset_names p) assets) (asked p s)).
Proof.
  intros Hlisted Hne. rewrite (run_module_listed _ _ _ _ Hlisted).
  by destruct (assets_to_download _ _).
Qed.

(** The run up to the first item whose download does not go through. *)
Lemma run_module_prefix p w s assets pre item post :
  release_listed p w assets →
  assets_to_download (asset_names p) assets = pre ++ item :: post →
  Forall (download_ok p w) pre →
  run_module p w s
  = finish ((x ← download p w initial_result (bound_after p w None pre) item;
             for_each (download p w initial_result) x post)
              (downloaded p w pre (asked p s))).
Proof.
  intros Hlisted Hsel Hok.
  rewrite (run_module_loop _ _ _ _ Hlisted) by (rewrite Hsel; by destruct pre).
  by rewrite Hsel, for_each_download_ok.
Qed.

Lemma stored_elsewhere p w items fs path :
  path ∉ path_of p w <$> items →
  foldl (store p w) fs items !! path = fs !! path.
Proof.
  revert fs. induction items as [|item items IH]; intros fs Hpath; simpl; [done|].
  rewrite fmap_cons in Hpath. apply not_elem_of_cons in Hpath as [Hne Hpath].
  rewrite IH by done. unfold store. by rewrite lookup_insert_ne.
Qed.

Lemma stored_last p w pre item post fs :
  path_of p w item ∉ path_of p w <$> post →
  foldl (store p w) fs (pre ++ item :: post) !! path_of p w item
  = Some (received p w item.1).
Proof.
  intros Hpath. rewrite foldl_app. simpl.
  rewrite stored_elsewhere by done. unfold store. apply lookup_insert_eq.
Qed.

(** C2: when the downloads of the items before [(id, name)] go through
    and the request for [id] is answered with a status other than 200,
    the run fails with "Failed to download " followed by [name].  No
    request is sent for a later item; the files are those the earlier
    downloads wrote: a path none of them wrote holds what it held before
    the run, and a path one of them wrote holds the bytes received for
    the last item written there. *)
Theorem download_failure_aborts (p : params) (w : world) (s : state)
    (assets : list asset) (pre post : dict) (id : Z) (name : string)
    (r : response) :
  release_listed p w assets →
  assets_to_download (asset_names p) assets = pre ++ (id, name) :: post →
  Forall (download_ok p w) pre →
  http w (asset_request p id) = inr r →
  status_code r ≠ 200 →
  run_module p w s
  = (inl (FailJson {| changed := false; msg := "Failed to download " +:+ name |}),
     {| files := foldl (store p w) (files s) pre;
        sent := sent s ++ release_request p
                  :: (asset_request p <$> pre.*1 ++ [id]) |})
  ∧ (∀ path, path ∉ path_of p w <$> pre →
       files (run_module p w s).2 !! path = files s !! path)
  ∧ (∀ pre1 item pre2, pre = pre1 ++ item :: pre2 →
       path_of p w item ∉ path_of p w <$> pre2 →
       files (run_module p w s).2 !! path_of p w item
       = Some (received p w item.1)).
Proof.
  intros Hlisted Hsel Hok Hget Hst.
  assert (run_module p w s
    = (inl (FailJson {| changed := false; msg := "Failed to download " +:+ name |}),
       {| files := foldl (store p w) (files s) pre;
          sent := sent s ++ release_request p
                    :: (asset_request p <$> pre.*1 ++ [id]) |})) as Hrun.
  { rewrite (run_module_prefix _ _ _ _ _ _ _ Hlisted Hsel Hok).
    erewrite bind_halt; last first.
    { rewrite download_step, Hget. simpl. by rewrite decide_True. }
    simpl. do 2 f_equal.
    rewrite fmap_app. simpl. by rewrite <- !app_assoc. }
  rewrite Hrun. simpl. split_and!; [done| |].
  - intros path Hpath. by apply stored_elsewhere.
  - intros pre1 item pre2 -> Hpath. by apply stored_last.
Qed.

(** C7: when every selected asset is downloaded, the run exits with
    [changed] false and the message "Completed to download assets on "
    followed by the destination: [output_path] when it is given, the
    working directory otherwise.  Every file is written under that
    destination. *)
Theorem all_downloaded (p : params) (w : world) (s : state)
    (assets : list asset) :
  let items := assets_to_download (asset_names p) assets in
  let dir := match output_path p with Some o => o | None => getcwd w end in
  release_listed p w assets →
  items ≠ [] →
  Forall (download_ok p w) items →
  run_module p w s
  = (inl (ExitJson {| changed := false;
                      msg := "Completed to download assets on " +:+ dir |}),
     {| files := foldl (λ fs item, <[path_join dir item.2 := received p w item.1]> fs)
                       (files s) items;
        sent := sent s ++ release_request p :: (asset_request p <$> items.*1) |}).
Proof.
  intros items dir Hlisted Hne Hok.
  rewrite (run_module_loop _ _ _ _ Hlisted) by done.
  fold items. rewrite <- (app_nil_r items) at 1.
  rewrite for_each_download_ok by done.
  assert (bound_after p w None items = Some (destination p w)) as ->
    by by destruct items.
  unfold downloaded, asked. simpl. by rewrite <- app_assoc.
Qed.

(** C10: a connection failure is turned into a message for the release
    request only.  When the downloads of the items before [(id, name)]
    go through and the request for [id] cannot connect, the exception
    escapes: the run ends with an uncaught [ConnectionError], and so
    with neither [exit_json] nor [fail_json]. *)
Theorem download_connection_error_escapes (p : params) (w : world) (s : state)
    (assets : list asset) (pre post : dict) (id : Z) (name : string) :
  release_listed p w assets →
  assets_to_download (asset_names p) assets = pre ++ (id, name) :: post →
  Forall (download_ok p w) pre →
  http w (asset_request p id) = inl ConnectionError →
  run_module p w s
  = (inl (Uncaught ConnectionError),
     {| files := foldl (store p w) (files s) pre;
        sent := sent s ++ release_request p
                  :: (asset_request p <$> pre.*1 ++ [id]) |})
  ∧ (∀ res s', run_module p w s ≠ (inl (FailJson res), s'))
  ∧ (∀ res s', run_module p w s ≠ (inl (ExitJson res), s')).
Proof.
  intros Hlisted Hsel Hok Hget.
  assert (run_module p w s
    = (inl (Uncaught ConnectionError),
       {| files := foldl (store p w) (files s) pre;
          sent := sent s ++ release_request p
                    :: (asset_request p <$> pre.*1 ++ [id]) |})) as Hrun.
  { rewrite (run_module_prefix _ _ _ _ _ _ _ Hlisted Hsel Hok).
    erewrite bind_halt; last by rewrite download_step, Hget.
    simpl. do 2 f_equal.
    rewrite fmap_app. simpl. by rewrite <- !app_assoc. }
  rewrite Hrun. split_and!; [done| |]; intros res s' Heq; discriminate Heq.
Qed.

(** ** The example server at work *)

Lemma example_release_listed names first second :
  release_listed (example_params names)
    (example_world (release_response 200) first second) two_assets.
Proof.
  split; [reflexivity|]. eexists. split; [reflexivity|].
  split_and!; [intros H; discriminate H | intros H; discriminate H | reflexivity].
Qed.

Lemma example_first_ok names second :
  download_ok (example_params names)
    (example_world (release_response 200) (asset_response 200 first_content) second)
    (1, "a.tar.gz").
Proof. vm_compute. by split_and!. Qed.

Lemma example_second_ok names first :
  download_ok (example_params names)
    (example_world (release_response 200) first (asset_response 200 second_content))
    (2, "b.zip").
Proof. vm_compute. by split_and!. Qed.

(** The first asset is written, the second is answered with status 500. *)
Lemma download_failure_aborts_witness :
  let p := example_params None in
  let w := example_world (release_response 200)
             (asset_response 200 first_content) (asset_response 500 []) in
  run_module p w empty_state
  = (inl (FailJson {| changed := false; msg := "Failed to download b.zip" |}),
     {| files := {[ "/home/eub/a.tar.gz" := [Byte.x1f; Byte.x8b; Byte.x08] ]};
        sent := [release_request p; asset_request p 1; asset_request p 2] |})
  ∧ files (run_module p w empty_state).2 !! "/home/eub/b.zip" = None
  ∧ files (run_module p w empty_state).2 !! "/home/eub/a.tar.gz"
    = Some [Byte.x1f; Byte.x8b; Byte.x08].
Proof.
  intros p w.
  pose proof (download_failure_aborts p w empty_state two_assets
                [(1, "a.tar.gz")] [] 2 "b.zip"
                {| status_code := 500; json := NotJson;
                   iter_content := []; interrupted := None |}
                (example_release_listed _ _ _) eq_refl
                (Forall_cons_2 _ _ _ (example_first_ok _ _) (Forall_nil_2 _))
                eq_refl ltac:(intros H; discriminate H))
    as (Hrun & Hother & Hlast).
  split_and!.
  - exact Hrun.
  - rewrite (Hother "/home/eub/b.zip"); [reflexivity|].
    apply not_elem_of_cons. split; [discriminate | apply not_elem_of_nil].
  - exact (Hlast [] (1, "a.tar.gz") [] eq_refl ltac:(apply not_elem_of_nil)).
Defined.

(** The spec's scenario: only [a.tar.gz] is asked for, and it arrives. *)
Lemma all_downloaded_witness :
  let p := example_params (Some ["a.tar.gz"]) in
  let w := example_world (release_response 200)
             (asset_response 200 first_content) (asset_response 200 second_content) in
  run_module p w empty_state
  = (inl (ExitJson {| changed := false;
                      msg := "Completed to download assets on /home/eub" |}),
     {| files := {[ "/home/eub/a.tar.gz" := [Byte.x1f; Byte.x8b; Byte.x08] ]};
        sent := [release_request p; asset_request p 1] |}).
Proof.
  intros p w.
  refine (all_downloaded p w empty_state two_assets
            (example_release_listed _ _ _) _ _).
  - intros H. discriminate H.
  - exact (Forall_cons_2 _ _ _ (example_first_ok _ _) (Forall_nil_2 _)).
Defined.

(** The first asset is written, the second request cannot connect. *)
Lemma download_connection_error_escapes_witness :
  let p := example_params None in
  let w := example_world (release_response 200)
             (asset_response 200 first_content) (inl ConnectionError) in
  run_module p w empty_state
  = (inl (Uncaught ConnectionError),
     {| files := {[ "/home/eub/a.tar.gz" := [Byte.x1f; Byte.x8b; Byte.x08] ]};
        sent := [release_request p; asset_request p 1; asset_request p 2] |}).
Proof.
  intros p w.
  exact (proj1 (download_connection_error_escapes p w empty_state two_assets
                  [(1, "a.tar.gz")] [] 2 "b.zip"
                  (example_release_listed _ _ _) eq_refl
                  (Forall_cons_2 _ _ _ (example_first_ok _ _) (Forall_nil_2 _))
                  eq_refl)).
Defined.

(** ** The run as a function of the world's answers *)

Lemma run_module_cases p w s :
  run_module p w s
  = if check_mode p then (inl (ExitJson initial_result), s)
    else
      match http w (release_request p) with
      | inl ConnectionError =>
          (inl (FailJson (set_msg ("Failed to connect " +:+ release_url p)
                                  initial_result)), asked p s)
      | inl e => (inl (Uncaught e), asked p s)
      | inr r =>
          if decide (status_code r = 401)
          then (inl (FailJson (set_msg "401 Unauthorized" initial_result)), asked p s)
          else if decide (status_code r = 404)
          then (inl (FailJson (set_msg "404 Not Found" initial_result)), asked p s)
          else
            match json r with
            | NotJson => (inl (Uncaught JSONDecodeError), asked p s)
            | JsonObject None => (inl (Uncaught (KeyError "assets")), asked p s)
            | JsonObject (Some assets) =>
                match assets_to_download (asset_names p) assets with
                | [] =>
                    (inl (FailJson (set_msg "There is no asset to download"
                                            initial_result)), asked p s)
                | items =>
                    finish (for_each (download p w initial_result) None items
                              (asked p s))
                end
            end
      end.
Proof.
  destruct (check_mode p) eqn:Hcheck.
  { unfold run_module. rewrite Hcheck. by apply bind_halt. }
  destruct (http w (release_request p)) as [e|r] eqn:Hget.
  { unfold run_module. rewrite Hcheck. erewrite bind_continue by done.
    destruct e; apply bind_halt; by rewrite get_release_step, Hget. }
  destruct (decide (status_code r = 401)) as [H401|H401].
  { unfold run_module. rewrite Hcheck. erewrite bind_continue by done.
    apply bind_halt. rewrite get_release_step, Hget. by rewrite decide_True. }
  destruct (decide (status_code r = 404)) as [H404|H404].
  { unfold run_module. rewrite Hcheck. erewrite bind_continue by done.
    apply bind_halt. rewrite get_release_step, Hget.
    by rewrite decide_False, decide_True. }
  destruct (json r) as [|[assets|]] eqn:Hjson.
  - unfold run_module. rewrite Hcheck. erewrite bind_continue by done.
    erewrite bind_continue; last first.
    { rewrite get_release_step, Hget. by rewrite !decide_False. }
    apply bind_halt. unfold get_assets. by rewrite Hjson.
  - apply run_module_listed. split; [done|]. by exists r.
  - unfold run_module. rewrite Hcheck. erewrite bind_continue by done.
    erewrite bind_continue; last first.
    { rewrite get_release_step, Hget. by rewrite !decide_False. }
    apply bind_halt. unfold get_assets. by rewrite Hjson.
Qed.

Lemma for_each_cons {A B} (body : B → A → M B) acc x rest :
  for_each body acc (x :: rest) = (acc' ← body acc x; for_each body acc' rest).
Proof. reflexivity. Qed.

(** What one turn of the loop can do. *)
Lemma download_inv p w acc id name s out s' :
  download p w initial_result acc (id, name) s = (out, s') →
  sent s' = sent s ++ [asset_request p id]
  ∧ match out with
    | inl (FailJson res) =>
        res = {| changed := false; msg := "Failed to download " +:+ name |}
    | inl (ExitJson _) => False
    | inl (Uncaught _) => True
    | inr acc' => acc' = Some (destination p w)
    end.
Proof.
  rewrite download_step. simpl.
  destruct (http w (asset_request p id)) as [e|r].
  { intros [= <- <-]. done. }
  destruct (decide (status_code r ≠ 200)).
  { intros [= <- <-]. done. }
  destruct (writable w _).
  - destruct (interrupted r); intros [= <- <-]; done.
  - intros [= <- <-]. done.
Qed.

Lemma for_each_download_inv p w items acc s out s' :
  for_each (download p w initial_result) acc items s = (out, s') →
  (∃ ids, ids `prefix_of` items.*1 ∧ sent s' = sent s ++ (asset_request p <$> ids))
  ∧ match out with
    | inl (FailJson res) =>
        ∃ id name, (id, name) ∈ items
          ∧ res = {| changed := false; msg := "Failed to download " +:+ name |}
    | inl (ExitJson _) => False
    | inl (Uncaught _) => True
    | inr acc' => acc' = bound_after p w acc items
    end.
Proof.
  revert acc s. induction items as [|[id name] items IH]; intros acc s.
  - intros [= <- <-]. split; [|done].
    exists []. split; [done|]. simpl. by rewrite app_nil_r.
  - rewrite for_each_cons. unfold mbind, M_bind.
    destruct (download p w initial_result acc (id, name) s)
      as [[h|acc1] s1] eqn:Hstep.
    + apply download_inv in Hstep as [Hsent Hout].
      intros [= <- <-]. split.
      * exists [id]. split; [|done]. by apply prefix_cons, prefix_nil.
      * destruct h as [res|res|e]; [done| |done].
        exists id, name. split; [by left|done].
    + apply download_inv in Hstep as [Hsent ->].
      intros Hrest. apply IH in Hrest as [(ids & Hpre & Hsent') Hout]. split.
      * exists (id :: ids). split; [by apply prefix_cons|].
        rewrite Hsent', Hsent. simpl. by rewrite <- app_assoc.
      * destruct out as [[res|res|e]|acc']; [done| |done|].
        -- destruct Hout as (id' & name' & Hin & ->).
           exists id', name'. split; [by right|done].
        -- rewrite Hout. by destruct items.
Qed.

(** Every run ends in one of the ways listed by [reported]. *)
Lemma run_module_reported p w s h s' :
  run_module p w s = (inl h, s') → reported p w h.
Proof.
  rewrite run_module_cases. unfold selection.
  destruct (check_mode p).
  { intros [= <- <-]. constructor. }
  destruct (http w (release_request p)) as [e|r] eqn:Hget.
  { destruct e; intros [= <- <-]; constructor. }
  destruct (decide (status_code r = 401)).
  { intros [= <- <-]. constructor. }
  destruct (decide (status_code r = 404)).
  { intros [= <- <-]. constructor. }
  destruct (json r) as [|[assets|]] eqn:Hjson;
    [intros [= <- <-]; constructor | | intros [= <- <-]; constructor].
  destruct (assets_to_download (asset_names p) assets) as [|item items] eqn:Hsel.
  { intros [= <- <-]. constructor. }
  destruct (for_each _ _ _ _) as [out s1] eqn:Hloop.
  apply for_each_download_inv in Hloop as [_ Hout].
  destruct out as [[res|res|e]|[dir|]]; simpl; intros [= <- <-];
    [done| |constructor| |done].
  - destruct Hout as (id & name & Hin & ->).
    apply (reported_download _ _ id). unfold selection.
    by rewrite Hget, Hjson, Hsel.
  - injection Hout as ->. constructor.
Qed.

(** The requests of a run: the release request, then requests for the
    first selected assets, in the order of the selection. *)
Lemma run_module_sent p w s :
  check_mode p = false →
  ∃ ids, ids `prefix_of` (selection p w).*1
         ∧ sent (run_module p w s).2
           = sent s ++ release_request p :: (asset_request p <$> ids).
Proof.
  intros Hcheck. rewrite run_module_cases, Hcheck. unfold selection.
  assert (∀ h l, ∃ ids : list Z, ids `prefix_of` l
            ∧ sent ((inl h : stop + Empty_set, asked p s)).2
              = sent s ++ release_request p :: (asset_request p <$> ids)) as Hnone.
  { intros h l. exists []. split; [apply prefix_nil|done]. }
  destruct (http w (release_request p)) as [e|r]; [destruct e; apply Hnone|].
  repeat case_decide; try apply Hnone.
  destruct (json r) as [|[assets|]]; try apply Hnone.
  destruct (assets_to_download (asset_names p) assets) as [|item items] eqn:Hsel;
    [apply Hnone|].
  destruct (for_each _ _ _ _) as [out s1] eqn:Hloop.
  apply for_each_download_inv in Hloop as [(ids & Hpre & Hsent) _].
  exists ids. split; [done|].
  assert (sent (finish (out, s1)).2 = sent s1) as ->
    by by destruct out as [h|[dir|]].
  rewrite Hsent. simpl. by rewrite <- app_assoc.
Qed.

(** ** The token *)

Section Token.

(** Two runs that differ in the token, against worlds that answer the
    requests of the one as they answer the requests of the other. *)
Variables (p : params) (t' : string) (w w' : world).

Hypothesis same_answers : ∀ u accept stream,
  http w' {| req_url := u;
             req_headers := [("Accept", accept); ("Authorization", "token " +:+ t')];
             req_stream := stream |}
  = http w {| req_url := u;
              req_headers := [("Accept", accept);
                              ("Authorization", "token " +:+ token p)];
              req_stream := stream |}.
Hypothesis same_cwd : getcwd w' = getcwd w.
Hypothesis same_writable : ∀ path, writable w' path = writable w path.

Lemma token_release_answer :
  http w' (release_request (with_token t' p)) = http w (release_request p).
Proof. apply same_answers. Qed.

Lemma token_asset_answer id :
  http w' (asset_request (with_token t' p) id) = http w (asset_request p id).
Proof. apply same_answers. Qed.

Lemma token_destination : destination (with_token t' p) w' = destination p w.
Proof. unfold destination. simpl. by rewrite same_cwd. Qed.

Lemma token_store fs item : store (with_token t' p) w' fs item = store p w fs item.
Proof.
  unfold store, received. by rewrite token_destination, token_asset_answer.
Qed.

Lemma token_download res acc item s1 s2 :
  files s1 = files s2 →
  alike (download (with_token t' p) w' res acc item s1) (download p w res acc item s2).
Proof.
  intros Hfiles. destruct item as [id name]. rewrite !download_step.
  rewrite token_asset_answer, token_destination, same_writable, token_store, Hfiles.
  unfold alike. simpl.
  destruct (http w (asset_request p id)) as [e|r]; [done|].
  destruct (decide (status_code r ≠ 200)); [done|].
  by destruct (writable w _).
Qed.

Lemma token_for_each res items acc s1 s2 :
  files s1 = files s2 →
  alike (for_each (download (with_token t' p) w' res) acc items s1)
        (for_each (download p w res) acc items s2).
Proof.
  revert acc s1 s2. induction items as [|item items IH]; intros acc s1 s2 Hfiles.
  - by split.
  - rewrite !for_each_cons. unfold mbind, M_bind.
    pose proof (token_download res acc item s1 s2 Hfiles) as [Hout Hfs].
    destruct (download (with_token t' p) w' res acc item s1) as [[h1|a1] s1'],
             (download p w res acc item s2) as [[h2|a2] s2'];
      simpl in Hout, Hfs; try discriminate Hout.
    + split; [done|done].
    + injection Hout as ->. by apply IH.
Qed.

Lemma token_run_module s1 s2 :
  files s1 = files s2 →
  alike (run_module (with_token t' p) w' s1) (run_module p w s2).
Proof.
  intros Hfiles. rewrite !run_module_cases, token_release_answer.
  unfold alike.
  change (check_mode (with_token t' p)) with (check_mode p).
  change (release_url (with_token t' p)) with (release_url p).
  change (asset_names (with_token t' p)) with (asset_names p).
  destruct (check_mode p); [done|].
  destruct (http w (release_request p)) as [e|r]; [by destruct e|].
  repeat case_decide; try done.
  destruct (json r) as [|[assets|]]; try done.
  destruct (assets_to_download (asset_names p) assets) as [|item items]; [done|].
  pose proof (token_for_each initial_result (item :: items) None
                (asked (with_token t' p) s1) (asked p s2) Hfiles) as [Hout Hfs].
  destruct (for_each (download (with_token t' p) w' _) _ _ _) as [[h1|a1] s1'],
           (for_each (download p w _) _ _ _) as [[h2|a2] s2'];
    simpl in Hout, Hfs; try discriminate Hout.
  - injection Hout as ->. by split.
  - injection Hout as ->. by destruct a2.
Qed.

End Token.

(** C9: two runs that differ only in the token, and whose requests are
    answered alike, end alike: the same [exit_json] or [fail_json] with
    the same message (or the same exception), and the same files.  The
    message of a run is thus no function of the token; neither are the
    URLs of its requests. *)
Theorem token_not_in_outcome (p : params) (t' : string) (w w' : world)
    (s s' : state) :
  (∀ u accept stream,
     http w' {| req_url := u;
                req_headers := [("Accept", accept);
                                ("Authorization", "token " +:+ t')];
                req_stream := stream |}
     = http w {| req_url := u;
                 req_headers := [("Accept", accept);
                                 ("Authorization", "token " +:+ token p)];
                 req_stream := stream |}) →
  getcwd w' = getcwd w →
  (∀ path, writable w' path = writable w path) →
  files s' = files s →
  (run_module (with_token t' p) w' s').1 = (run_module p w s).1
  ∧ files (run_module (with_token t' p) w' s').2 = files (run_module p w s).2
  ∧ req_url (release_request (with_token t' p)) = req_url (release_request p)
  ∧ (∀ id, req_url (asset_request (with_token t' p) id)
           = req_url (asset_request p id)).
Proof.
  intros Hanswers Hcwd Hwritable Hfiles.
  destruct (token_run_module p t' w w' Hanswers Hcwd Hwritable s' s Hfiles)
    as [Hout Hfs].
  by split_and!.
Qed.

(** The example's run with another token, against a server that does not
    look at the token. *)
Lemma token_not_in_outcome_witness :
  let p := example_params None in
  let w := example_world (release_response 200)
             (asset_response 200 first_content) (asset_response 500 []) in
  (run_module (with_token "another-token" p) w empty_state).1
  = (run_module p w empty_state).1
  ∧ files (run_module (with_token "another-token" p) w empty_state).2
    = files (run_module p w empty_state).2.
Proof.
  intros p w.
  pose proof (token_not_in_outcome p "another-token" w w empty_state empty_state
                (λ _ _ _, eq_refl) eq_refl (λ _, eq_refl) eq_refl)
    as (Hout & Hfs & _).
  exact (conj Hout Hfs).
Defined.

(** ** The result *)

(** C8: whenever a run ends with [exit_json] or [fail_json], the result
    it hands over has [changed] false. *)
Theorem changed_always_false (p : params) (w : world) (s s' : state)
    (res : result) :
  run_module p w s = (inl (ExitJson res), s')
  ∨ run_module p w s = (inl (FailJson res), s') →
  changed res = false.
Proof.
  intros [Hrun|Hrun]; apply run_module_reported in Hrun; by inversion Hrun.
Qed.

(** The example's successful run, and a run in check mode. *)
Lemma changed_always_false_witness :
  let p := example_params (Some ["a.tar.gz"]) in
  let w := example_world (release_response 200)
             (asset_response 200 first_content) (asset_response 200 second_content) in
  let res := {| changed := false;
                msg := "Completed to download assets on /home/eub" |} in
  let s' := {| files := {[ "/home/eub/a.tar.gz" := [Byte.x1f; Byte.x8b; Byte.x08] ]};
               sent := [release_request p; asset_request p 1] |} in
  run_module p w empty_state = (inl (ExitJson res), s') ∧ changed res = false.
Proof.
  intros p w res s'.
  assert (run_module p w empty_state = (inl (ExitJson res), s')) as Hrun
    by (vm_compute; reflexivity).
  split; [exact Hrun|].
  exact (changed_always_false p w empty_state s' res (or_introl Hrun)).
Defined.

(** X1: in check mode the run exits at once: nothing is requested,
    nothing is written, and the message is empty. *)
Example check_mode_exits p w s :
  check_mode p = true →
  run_module p w s = (inl (ExitJson {| changed := false; msg := EmptyString |}), s).
Proof. intros Hcheck. by rewrite run_module_cases, Hcheck. Qed.

(** ** The URLs *)

(** The loop over a dictionary that is not empty sends the request for
    its first item, whatever comes of it. *)
Lemma for_each_download_first p w id name items acc s :
  ∃ ids, ids `prefix_of` items.*1
    ∧ sent (for_each (download p w initial_result) acc ((id, name) :: items) s).2
      = sent s ++ (asset_request p <$> id :: ids).
Proof.
  destruct (for_each (download p w initial_result) acc ((id, name) :: items) s)
    as [out s'] eqn:Hloop.
  rewrite for_each_cons in Hloop. unfold mbind, M_bind in Hloop.
  destruct (download p w initial_result acc (id, name) s) as [[h|acc1] s1] eqn:Hstep;
    apply download_inv in Hstep as [Hsent _].
  - injection Hloop as <- <-. exists []. split; [apply prefix_nil|done].
  - apply for_each_download_inv in Hloop as [(ids & Hpre & Hsent') _].
    exists ids. split; [done|]. simpl.
    rewrite Hsent', Hsent. simpl. by rewrite <- app_assoc.
Qed.

(** C6: outside check mode, the first request of a run goes to
    [{url}/api/v3/repos/{owner}/{repo}/releases/latest] when no tag is
    given and to [{url}/api/v3/repos/{owner}/{repo}/releases/tags/{tag}]
    otherwise, and every later request goes to
    [{url}/api/v3/repos/{owner}/{repo}/releases/assets/{id}] for the ids
    of the selection, in its order.  Once the release is listed, every
    selected asset whose predecessors were downloaded is requested, at
    that URL for its id: the requests of the run start with the release
    request, the requests for those predecessors and the request for
    that asset. *)
Theorem request_urls (p : params) (w : world) (s : state) :
  check_mode p = false →
  (∃ ids, ids `prefix_of` (selection p w).*1
     ∧ req_url <$> sent (run_module p w s).2
       = (req_url <$> sent s)
         ++ match tag p with
            | None =>
                url p +:+ "/api/v3/repos/" +:+ owner p +:+ "/" +:+ repo p
                  +:+ "/releases/latest"
            | Some t =>
                url p +:+ "/api/v3/repos/" +:+ owner p +:+ "/" +:+ repo p
                  +:+ "/releases/tags/" +:+ t
            end
            :: ((λ id, url p +:+ "/api/v3/repos/" +:+ owner p +:+ "/" +:+ repo p
                         +:+ "/releases/assets/" +:+ pretty id) <$> ids))
  ∧ (∀ (assets : list asset) (pre post : dict) (id : Z) (name : string),
       release_listed p w assets →
       assets_to_download (asset_names p) assets = pre ++ (id, name) :: post →
       Forall (download_ok p w) pre →
       ∃ later,
         req_url <$> sent (run_module p w s).2
         = (req_url <$> sent s)
           ++ match tag p with
              | None =>
                  url p +:+ "/api/v3/repos/" +:+ owner p +:+ "/" +:+ repo p
                    +:+ "/releases/latest"
              | Some t =>
                  url p +:+ "/api/v3/repos/" +:+ owner p +:+ "/" +:+ repo p
                    +:+ "/releases/tags/" +:+ t
              end
              :: ((λ id, url p +:+ "/api/v3/repos/" +:+ owner p +:+ "/" +:+ repo p
                           +:+ "/releases/assets/" +:+ pretty id)
                    <$> pre.*1 ++ [id])
              ++ later).
Proof.
  intros Hcheck.
  assert (req_url (release_request p)
          = match tag p with
            | None =>
                url p +:+ "/api/v3/repos/" +:+ owner p +:+ "/" +:+ repo p
                  +:+ "/releases/latest"
            | Some t =>
                url p +:+ "/api/v3/repos/" +:+ owner p +:+ "/" +:+ repo p
                  +:+ "/releases/tags/" +:+ t
            end) as Hrelease.
  { simpl. unfold release_url, github_endpoint_url.
    destruct (tag p); by rewrite !string_app_assoc. }
  assert (∀ ids : list Z,
            req_url <$> (asset_request p <$> ids)
            = (λ id, url p +:+ "/api/v3/repos/" +:+ owner p +:+ "/" +:+ repo p
                       +:+ "/releases/assets/" +:+ pretty id) <$> ids) as Hassets.
  { intros ids. rewrite <- list_fmap_compose. apply list_fmap_ext.
    intros _ id _. simpl. unfold asset_url, github_endpoint_url.
    by rewrite !string_app_assoc. }
  split.
  - destruct (run_module_sent p w s Hcheck) as (ids & Hpre & Hsent).
    exists ids. split; [done|].
    by rewrite Hsent, fmap_app, fmap_cons, Hrelease, Hassets.
  - intros assets pre post id name Hlisted Hsel Hok.
    rewrite (run_module_loop _ _ _ _ Hlisted) by (rewrite Hsel; by destruct pre).
    rewrite Hsel, for_each_download_ok by done.
    destruct (for_each_download_first p w id name post
                (bound_after p w None pre) (downloaded p w pre (asked p s)))
      as (ids & _ & Hsent).
    exists ((λ id, url p +:+ "/api/v3/repos/" +:+ owner p +:+ "/" +:+ repo p
                     +:+ "/releases/assets/" +:+ pretty id) <$> ids).
    assert (∀ run, sent (finish run).2 = sent run.2) as ->
      by (by intros [[h|[dir|]] s1]).
    rewrite Hsent, <- Hrelease, <- !Hassets.
    unfold downloaded, asked. cbn [sent].
    repeat (rewrite ?fmap_app, ?fmap_cons, <- ?app_assoc; simpl).
    reflexivity.
Qed.

(** The example's run whose second download is answered with status
    500: both assets are requested. *)
Lemma request_urls_witness :
  ∃ later,
    req_url <$> sent (run_module (example_params None)
                        (example_world (release_response 200)
                           (asset_response 200 first_content)
                           (asset_response 500 []))
                        empty_state).2
    = "https://github.example.com/api/v3/repos/eub/something-magnificent/releases/latest"
      :: ["https://github.example.com/api/v3/repos/eub/something-magnificent/releases/assets/1";
          "https://github.example.com/api/v3/repos/eub/something-magnificent/releases/assets/2"]
      ++ later.
Proof.
  exact (proj2 (request_urls (example_params None)
                  (example_world (release_response 200)
                     (asset_response 200 first_content) (asset_response 500 []))
                  empty_state eq_refl)
           two_assets [(1, "a.tar.gz")] [] 2 "b.zip"
           (example_release_listed _ _ _) eq_refl
           (Forall_cons_2 _ _ _ (example_first_ok _ _) (Forall_nil_2 _))).
Defined.

(** ** The selection on any response *)

Section SelectionAny.

Implicit Types (d : dict) (l : list asset) (names : option (list string)).

Lemma dict_update_elem k v d : (k, v) ∈ dict_update k v d.
Proof.
  induction d as [|[k' v'] d IH]; simpl; [by left|].
  destruct (decide (k = k')); [by left|by right].
Qed.

Lemma dict_update_elem_inv k v d k' v' :
  (k', v') ∈ dict_update k v d → (k', v') = (k, v) ∨ (k', v') ∈ d.
Proof.
  induction d as [|[k1 v1] d IH]; simpl.
  - intros Hin. apply list_elem_of_singleton in Hin. by left.
  - destruct (decide (k = k1)) as [->|Hne]; intros Hin;
      apply elem_of_cons in Hin as [Heq|Hin].
    + by left.
    + right. by right.
    + right. rewrite Heq. by left.
    + destruct (IH Hin) as [?|?]; [by left|right; by right].
Qed.

Lemma dict_update_other k v d k' v' :
  k' ≠ k → (k', v') ∈ d → (k', v') ∈ dict_update k v d.
Proof.
  intros Hne. induction d as [|[k1 v1] d IH]; simpl; intros Hin.
  - by apply elem_of_nil in Hin.
  - apply elem_of_cons in Hin as [Heq|Hin].
    + injection Heq as <- <-. rewrite decide_False by done. by left.
    + destruct (decide (k = k1)); right; [done|by apply IH].
Qed.

Lemma dict_update_key k v d : k ∈ (dict_update k v d).*1.
Proof. apply list_elem_of_fmap. exists (k, v). split; [done|apply dict_update_elem]. Qed.

Lemma dict_update_keys_mono k v d k' :
  k' ∈ d.*1 → k' ∈ (dict_update k v d).*1.
Proof.
  intros Hin. destruct (decide (k ∈ d.*1)) as [Hk|Hk].
  - by rewrite dict_update_keys.
  - rewrite dict_update_fresh, fmap_app by done. apply elem_of_app. by left.
Qed.

Lemma select_foldl_sound names l d id name :
  (id, name) ∈ foldl (select_step names) d l →
  (id, name) ∈ d ∨ (Asset id name ∈ l ∧ skipped names name = false).
Proof.
  revert d. induction l as [|a l IH]; intros d; simpl; [by left|].
  intros Hin. apply IH in Hin as [Hin|[Hin Hkept]].
  - unfold select_step in Hin.
    destruct (skipped names (asset_name a)) eqn:Hs; [by left|].
    apply dict_update_elem_inv in Hin as [Heq|Hin]; [|by left].
    right. injection Heq as -> ->. split; [|done]. destruct a. by left.
  - right. split; [by right|done].
Qed.

Lemma select_foldl_keys_mono names l d k :
  k ∈ d.*1 → k ∈ (foldl (select_step names) d l).*1.
Proof.
  revert d. induction l as [|a l IH]; intros d Hk; simpl; [done|].
  apply IH. unfold select_step.
  destruct (skipped names (asset_name a)); [done|by apply dict_update_keys_mono].
Qed.

Lemma select_foldl_complete names l d a :
  a ∈ l → skipped names (asset_name a) = false →
  asset_id a ∈ (foldl (select_step names) d l).*1.
Proof.
  revert d. induction l as [|b l IH]; intros d Hin Hkept; simpl.
  - by apply elem_of_nil in Hin.
  - apply elem_of_cons in Hin as [->|Hin]; [|by apply IH].
    apply select_foldl_keys_mono. unfold select_step.
    rewrite Hkept. apply dict_update_key.
Qed.

Lemma select_foldl_preserved names l d k v :
  (k, v) ∈ d →
  (∀ b, b ∈ l → skipped names (asset_name b) = false → asset_id b ≠ k) →
  (k, v) ∈ foldl (select_step names) d l.
Proof.
  revert d. induction l as [|b l IH]; intros d Hin Hother; simpl; [done|].
  apply IH; [|intros c Hc; apply Hother; by right].
  unfold select_step. destruct (skipped names (asset_name b)) eqn:Hs; [done|].
  apply dict_update_other; [|done].
  intros Heq. by apply (Hother b); [left| |].
Qed.

End SelectionAny.

Lemma dict_unique (d : dict) k v v' :
  NoDup d.*1 → (k, v) ∈ d → (k, v') ∈ d → v = v'.
Proof.
  induction d as [|[k1 v1] d IH]; simpl; intros Hnd Hin Hin'.
  - by apply elem_of_nil in Hin.
  - apply NoDup_cons in Hnd as [Hfresh Hnd].
    apply elem_of_cons in Hin as [Heq|Hin], Hin' as [Heq'|Hin'].
    + congruence.
    + injection Heq as -> ->. destruct Hfresh.
      apply list_elem_of_fmap. by exists (k1, v').
    + injection Heq' as -> ->. destruct Hfresh.
      apply list_elem_of_fmap. by exists (k1, v).
    + by apply IH.
Qed.

(** The last element of a list with a given property. *)
Lemma last_such {A} (P : A → Prop) `{!∀ x, Decision (P x)} (l : list A) :
  (∃ a, a ∈ l ∧ P a) →
  ∃ l1 a l2, l = l1 ++ a :: l2 ∧ P a ∧ ∀ b, b ∈ l2 → ¬ P b.
Proof.
  induction l as [|x l IH]; intros (a & Hin & Ha).
  - by apply elem_of_nil in Hin.
  - destruct (decide (Exists P l)) as [Hex|Hno].
    + apply Exists_exists in Hex. destruct (IH Hex) as (l1 & b & l2 & -> & Hb & Hlast).
      by exists (x :: l1), b, l2.
    + exists [], x, l. split_and!; [done| |].
      * apply elem_of_cons in Hin as [->|Hin]; [done|].
        destruct Hno. apply Exists_exists. eauto.
      * intros b Hb HPb. apply Hno, Exists_exists. eauto.
Qed.

(** X3: on any response, also one that repeats an id, the dictionary
    has one entry per id, and its entries are exactly the assets that
    are the last the filter keeps under their id: it holds only assets
    of the response that the filter keeps, it has an entry for the id of
    every asset the filter keeps, and the name it stores for an id is
    that of the last asset kept under that id, and no other. *)
Theorem assets_to_download_any (names : option (list string)) (l : list asset) :
  NoDup (assets_to_download names l).*1
  ∧ (∀ a, a ∈ l → skipped names (asset_name a) = false →
       asset_id a ∈ (assets_to_download names l).*1)
  ∧ (∀ id name,
       (id, name) ∈ assets_to_download names l
       ↔ ∃ l1 l2,
           l = l1 ++ Asset id name :: l2
           ∧ skipped names name = false
           ∧ ∀ b, b ∈ l2 → skipped names (asset_name b) = false →
                  asset_id b ≠ id).
Proof.
  assert (∀ l1 a l2, l = l1 ++ a :: l2 →
            skipped names (asset_name a) = false →
            (∀ b, b ∈ l2 → skipped names (asset_name b) = false →
               asset_id b ≠ asset_id a) →
            (asset_id a, asset_name a) ∈ assets_to_download names l) as Hlast.
  { intros l1 a l2 -> Hkept Hlater. unfold assets_to_download.
    rewrite foldl_app. simpl. apply select_foldl_preserved; [|done].
    unfold select_step at 1. rewrite Hkept. apply dict_update_elem. }
  split_and!.
  - apply assets_to_download_NoDup.
  - intros a Hin Hkept. by apply select_foldl_complete.
  - intros id name. split.
    + intros Hin. pose proof Hin as Hsound.
      apply select_foldl_sound in Hsound as [Hnil|[Hl Hkept]];
        [by apply elem_of_nil in Hnil|].
      destruct (last_such
                  (λ a, skipped names (asset_name a) = false ∧ asset_id a = id) l)
        as (l1 & a & l2 & Hsplit & [Hkept' Hid] & Hlater).
      { exists (Asset id name). by split_and!. }
      assert ((asset_id a, asset_name a) ∈ assets_to_download names l) as Hin'.
      { apply (Hlast l1 a l2); [done..|].
        intros b Hb Hkb Hidb. apply (Hlater b Hb). split; congruence. }
      rewrite Hid in Hin'.
      pose proof (dict_unique _ _ _ _ (assets_to_download_NoDup names l) Hin Hin')
        as Hname.
      exists l1, l2. split_and!; [|done|].
      * rewrite Hsplit. destruct a as [ida na]. simpl in *. by subst.
      * intros b Hb Hkb Hidb. apply (Hlater b Hb). by split.
    + intros (l1 & l2 & Hsplit & Hkept & Hlater).
      by apply (Hlast l1 (Asset id name) l2).
Qed.

(** X13: the filter acts as a set: two filters with the same entries,
    in whatever order and however often repeated, select the same
    assets in the same order. *)
Theorem filter_order_irrelevant (f f' : list string) (l : list asset) :
  (∀ x, x ∈ f ↔ x ∈ f') →
  assets_to_download (Some f) l = assets_to_download (Some f') l.
Proof. intros Hsame. apply assets_to_download_ext. intros a _. apply Hsame. Qed.

(** The example's two names, swapped and one of them repeated. *)
Lemma filter_order_irrelevant_witness :
  assets_to_download (Some ["b.zip"; "a.tar.gz"; "b.zip"]) two_assets
  = assets_to_download (Some ["a.tar.gz"; "b.zip"]) two_assets.
Proof.
  apply (filter_order_irrelevant ["b.zip"; "a.tar.gz"; "b.zip"] ["a.tar.gz"; "b.zip"]).
  intros x. rewrite !elem_of_cons. tauto.
Defined.

(** A response with a repeated id: the last name kept for it is stored,
    the first is not. *)
Lemma assets_to_download_any_witness :
  (1, "c.txt") ∈ assets_to_download None repeated_id
  ∧ (1, "a.tar.gz") ∉ assets_to_download None repeated_id.
Proof.
  split.
  - refine (proj2 (proj2 (proj2 (assets_to_download_any None repeated_id))
                     1 "c.txt") _).
    exists [Asset 1 "a.tar.gz"; Asset 2 "b.zip"], [].
    split_and!; [reflexivity..|].
    intros b Hb. by apply elem_of_nil in Hb.
  - intros Hin.
    apply (proj1 (proj2 (proj2 (assets_to_download_any None repeated_id))
                    1 "a.tar.gz")) in Hin as (l1 & l2 & Hsplit & _ & Hlater).
    unfold repeated_id in Hsplit.
    destruct l1 as [|a1 [|a2 [|a3 l1]]]; simplify_eq/=.
    + by apply (Hlater (Asset 1 "c.txt")); [right; left| |].
    + by destruct l1.
Defined.

(** ** What a run does to the disk *)

Lemma download_continue_inv p w res acc item s a s1 :
  download p w res acc item s = (inr a, s1) →
  download_ok p w item ∧ a = Some (destination p w)
  ∧ s1 = downloaded p w [item] s.
Proof.
  destruct item as [id name]. rewrite download_step.
  unfold download_ok, downloaded. simpl.
  destruct (http w (asset_request p id)) as [e|r]; [intros [=]|].
  destruct (decide (status_code r ≠ 200)) as [|Hst]; [intros [=]|].
  destruct (writable w _); [|intros [=]].
  destruct (interrupted r); intros [= <- <-].
  split_and!; try done.
  destruct (decide (status_code r = 200)); [done|by destruct Hst].
Qed.

(** The loop comes to its end only when every download went through. *)
Lemma for_each_download_continue_inv p w res items acc s acc' s' :
  for_each (download p w res) acc items s = (inr acc', s') →
  Forall (download_ok p w) items ∧ s' = downloaded p w items s.
Proof.
  revert acc s. induction items as [|item items IH]; intros acc s.
  - intros [= <- <-]. split; [done|]. by rewrite downloaded_nil.
  - rewrite for_each_cons. unfold mbind, M_bind.
    destruct (download p w res acc item s) as [[h|a] s1] eqn:Hstep; [intros [=]|].
    apply download_continue_inv in Hstep as (Hok & -> & ->).
    intros Hrest. apply IH in Hrest as [Hoks ->].
    split; [by constructor|]. by rewrite <- downloaded_cons.
Qed.

(** The end of the loop and the files it writes are the same from every
    state: the files are those of a prefix of the items. *)
Lemma for_each_download_effect p w res items acc :
  ∃ pre out, pre `prefix_of` items
    ∧ ∀ s, (for_each (download p w res) acc items s).1 = out
           ∧ files (for_each (download p w res) acc items s).2
             = foldl (store p w) (files s) pre.
Proof.
  revert acc. induction items as [|[id name] items IH]; intros acc.
  { exists [], (inr acc). split; [done|]. by intros s. }
  assert (∀ h,
    (∀ s, download p w res acc (id, name) s
          = (inl h, {| files := files s; sent := sent s ++ [asset_request p id] |})) →
    ∃ pre out, pre `prefix_of` (id, name) :: items
      ∧ ∀ s, (for_each (download p w res) acc ((id, name) :: items) s).1 = out
             ∧ files (for_each (download p w res) acc ((id, name) :: items) s).2
               = foldl (store p w) (files s) pre) as Hstop.
  { intros h Hstep. exists [], (inl h). split; [apply prefix_nil|].
    intros s. rewrite for_each_cons. unfold mbind, M_bind. by rewrite Hstep. }
  destruct (http w (asset_request p id)) as [e|r] eqn:Hget.
  { apply (Hstop (Uncaught e)). intros s. by rewrite download_step, Hget. }
  destruct (decide (status_code r ≠ 200)) as [Hst|Hst].
  { apply (Hstop (FailJson (set_msg ("Failed to download " +:+ name) res))).
    intros s. rewrite download_step, Hget. simpl. by rewrite decide_True. }
  destruct (writable w (path_join (destination p w) name)) eqn:Hw; last first.
  { apply (Hstop (Uncaught OSError)).
    intros s. rewrite download_step, Hget. simpl.
    by rewrite decide_False, Hw. }
  destruct (interrupted r) as [e|] eqn:Hint.
  - exists [(id, name)], (inl (Uncaught e)).
    split; [by apply prefix_cons, prefix_nil|].
    intros s. rewrite for_each_cons. unfold mbind, M_bind.
    rewrite download_step, Hget. simpl. by rewrite decide_False, Hw, Hint.
  - destruct (IH (Some (destination p w))) as (pre & out & Hpre & Heff).
    exists ((id, name) :: pre), out. split; [by apply prefix_cons|].
    intros s. rewrite for_each_cons. unfold mbind, M_bind.
    rewrite download_step, Hget. simpl. rewrite decide_False, Hw, Hint by done.
    apply Heff.
Qed.

(** The same for the whole run. *)
Lemma run_module_effect p w :
  ∃ pre h, pre `prefix_of` selection p w
    ∧ ∀ s, (run_module p w s).1 = inl h
           ∧ files (run_module p w s).2 = foldl (store p w) (files s) pre.
Proof.
  assert (∀ h, (∀ s, run_module p w s = (inl h, s) ∨ run_module p w s = (inl h, asked p s)) →
    ∃ pre h, pre `prefix_of` selection p w
      ∧ ∀ s, (run_module p w s).1 = inl h
             ∧ files (run_module p w s).2 = foldl (store p w) (files s) pre) as Hstop.
  { intros h Hrun. exists [], h. split; [apply prefix_nil|].
    intros s. by destruct (Hrun s) as [->| ->]. }
  destruct (check_mode p) eqn:Hcheck.
  { apply (Hstop (ExitJson initial_result)). intros s. left.
    by rewrite run_module_cases, Hcheck. }
  destruct (http w (release_request p)) as [e|r] eqn:Hget.
  { destruct e;
      [apply (Hstop (FailJson (set_msg ("Failed to connect " +:+ release_url p)
                                       initial_result)))
      |apply (Hstop (Uncaught RequestException))
      |apply (Hstop (Uncaught JSONDecodeError))
      |apply (Hstop (Uncaught (KeyError key)))
      |apply (Hstop (Uncaught OSError))
      |apply (Hstop (Uncaught (UnboundLocalError var)))];
      intros s; right; by rewrite run_module_cases, Hcheck, Hget. }
  destruct (decide (status_code r = 401)) as [H401|H401].
  { apply (Hstop (FailJson (set_msg "401 Unauthorized" initial_result))).
    intros s. right. rewrite run_module_cases, Hcheck, Hget. by rewrite decide_True. }
  destruct (decide (status_code r = 404)) as [H404|H404].
  { apply (Hstop (FailJson (set_msg "404 Not Found" initial_result))).
    intros s. right. rewrite run_module_cases, Hcheck, Hget.
    by rewrite decide_False, decide_True. }
  destruct (json r) as [|[assets|]] eqn:Hjson.
  { apply (Hstop (Uncaught JSONDecodeError)).
    intros s. right. rewrite run_module_cases, Hcheck, Hget, Hjson.
    by rewrite !decide_False. }
  2: { apply (Hstop (Uncaught (KeyError "assets"))).
       intros s. right. rewrite run_module_cases, Hcheck, Hget, Hjson.
       by rewrite !decide_False. }
  assert (selection p w = assets_to_download (asset_names p) assets) as Hsel
    by (unfold selection; by rewrite Hget, Hjson).
  destruct (assets_to_download (asset_names p) assets) as [|item items] eqn:Hitems.
  { apply (Hstop (FailJson (set_msg "There is no asset to download" initial_result))).
    intros s. right. rewrite run_module_cases, Hcheck, Hget, Hjson, Hitems.
    by rewrite !decide_False. }
  destruct (for_each_download_effect p w initial_result (item :: items) None)
    as (pre & out & Hpre & Heff).
  exists pre,
    (match out with
     | inl h => h
     | inr None => Uncaught (UnboundLocalError "parent_dir")
     | inr (Some dir) =>
         ExitJson (set_msg ("Completed to download assets on " +:+ dir)
                           initial_result)
     end).
  split; [by rewrite Hsel|].
  intros s. rewrite run_module_cases, Hcheck, Hget, Hjson, Hitems.
  rewrite !decide_False by done.
  destruct (Heff (asked p s)) as [Hout Hfiles].
  destruct (for_each _ _ _ _) as [o s1]. simpl in Hout, Hfiles. subst o.
  by destruct out as [h|[dir|]].
Qed.

Lemma stored_agree p w items (fs fs' : gmap string bytes) :
  (∀ path, path ∉ path_of p w <$> items → fs !! path = fs' !! path) →
  foldl (store p w) fs items = foldl (store p w) fs' items.
Proof.
  revert fs fs'. induction items as [|item items IH]; intros fs fs' Hagree; simpl.
  - apply map_eq. intros path. apply Hagree, not_elem_of_nil.
  - apply IH. intros path Hpath. unfold store.
    destruct (decide (path_join (destination p w) item.2 = path)) as [<-|Hne].
    + by rewrite !lookup_insert_eq.
    + rewrite !lookup_insert_ne by done. apply Hagree.
      rewrite fmap_cons. apply not_elem_of_cons. split; [|done].
      intros ->. by destruct Hne.
Qed.

Lemma stored_idempotent p w items (fs : gmap string bytes) :
  foldl (store p w) (foldl (store p w) fs items) items = foldl (store p w) fs items.
Proof. apply stored_agree. intros path Hpath. by apply stored_elsewhere. Qed.

Lemma stored_is_Some p w items (fs : gmap string bytes) path :
  is_Some (fs !! path) → is_Some (foldl (store p w) fs items !! path).
Proof.
  revert fs. induction items as [|item items IH]; intros fs Hsome; simpl; [done|].
  apply IH. unfold store. rewrite lookup_insert. by case_decide.
Qed.

(** X7: running the module again on what a run left behind ends the
    same way, with the same message, and leaves the same files. *)
Theorem run_module_idempotent (p : params) (w : world) (s : state) :
  (run_module p w (run_module p w s).2).1 = (run_module p w s).1
  ∧ files (run_module p w (run_module p w s).2).2 = files (run_module p w s).2.
Proof.
  destruct (run_module_effect p w) as (pre & h & _ & Heff).
  destruct (Heff s) as [Hout Hfiles].
  destruct (Heff (run_module p w s).2) as [Hout' Hfiles'].
  split; [by rewrite Hout, Hout'|].
  rewrite Hfiles', Hfiles. apply stored_idempotent.
Qed.

Lemma stored_size p w items (fs : gmap string bytes) :
  (size (foldl (store p w) fs items) ≤ size fs + length items)%nat.
Proof.
  revert fs. induction items as [|item items IH]; intros fs; simpl; [lia|].
  etrans; [apply IH|]. unfold store. rewrite map_size_insert.
  destruct (fs !! _); unfold id; lia.
Qed.

(** X8: whatever way a run ends, no file that was there before the run
    is gone after it: the run creates and overwrites files, it removes
    none; and it creates at most one file per selected asset. *)
Theorem run_module_never_deletes (p : params) (w : world) (s : state) :
  (∀ path, is_Some (files s !! path) →
           is_Some (files (run_module p w s).2 !! path))
  ∧ (size (files (run_module p w s).2)
     ≤ size (files s) + length (selection p w))%nat.
Proof.
  destruct (run_module_effect p w) as (pre & h & [post Hpre] & Heff).
  destruct (Heff s) as [_ ->]. split.
  - intros path. apply stored_is_Some.
  - etrans; [apply stored_size|]. rewrite Hpre, length_app. lia.
Qed.

(** ** Reading the end of a run backwards *)

(** The loop fails a download only at the first item whose request is
    answered with another status than 200. *)
Lemma for_each_download_fail_inv p w items acc s res s' :
  for_each (download p w initial_result) acc items s = (inl (FailJson res), s') →
  ∃ pre id name post r,
    items = pre ++ (id, name) :: post
    ∧ Forall (download_ok p w) pre
    ∧ http w (asset_request p id) = inr r
    ∧ status_code r ≠ 200
    ∧ res = {| changed := false; msg := "Failed to download " +:+ name |}.
Proof.
  revert acc s. induction items as [|[id name] items IH]; intros acc s.
  { intros [=]. }
  rewrite for_each_cons. unfold mbind, M_bind.
  destruct (download p w initial_result acc (id, name) s) as [[h|a] s1] eqn:Hstep.
  - intros [= -> <-]. exists [], id, name, items.
    rewrite download_step in Hstep. simpl in Hstep.
    destruct (http w (asset_request p id)) as [e|r]; [discriminate Hstep|].
    exists r. destruct (decide (status_code r ≠ 200)) as [Hst|Hst].
    + injection Hstep as <- _. by split_and!.
    + destruct (writable w _); [destruct (interrupted r)|]; discriminate Hstep.
  - apply download_continue_inv in Hstep as (Hok & -> & ->).
    intros Hrest. apply IH in Hrest
      as (pre & id' & name' & post & r & -> & Hpre & Hget & Hst & ->).
    exists ((id, name) :: pre), id', name', post, r.
    split_and!; try done. by constructor.
Qed.

Lemma skipped_true names name :
  skipped names name = true ↔ ∃ f, names = Some f ∧ name ∉ f.
Proof.
  destruct names as [f|]; simpl.
  - rewrite negb_true_iff, bool_decide_eq_false. split; [eauto|].
    by intros (f' & [= <-] & ?).
  - split; [done|]. by intros (f & [=] & _).
Qed.

(** Nothing is selected exactly when the filter keeps no asset. *)
Lemma assets_to_download_nil names l :
  assets_to_download names l = []
  ↔ ∀ a, a ∈ l → skipped names (asset_name a) = true.
Proof.
  split.
  - intros Hnil a Hin. destruct (skipped names (asset_name a)) eqn:Hs; [done|].
    pose proof (select_foldl_complete names l [] a Hin Hs) as Hkey.
    fold (assets_to_download names l) in Hkey. rewrite Hnil in Hkey.
    by apply elem_of_nil in Hkey.
  - intros Hall. unfold assets_to_download.
    induction l as [|a l IH]; [done|]. simpl. unfold select_step at 2.
    rewrite (Hall a) by by left. apply IH. intros b Hb. apply Hall. by right.
Qed.

(** X9: outside check mode, a run that ends with [exit_json] has
    selected at least one asset and downloaded every selected asset: each
    request was answered with status 200 and each file was written in
    full. *)
Theorem exit_json_only_after_every_download (p : params) (w : world) (s s' : state)
    (res : result) :
  check_mode p = false →
  run_module p w s = (inl (ExitJson res), s') →
  selection p w ≠ []
  ∧ Forall (download_ok p w) (selection p w)
  ∧ s' = downloaded p w (selection p w) (asked p s)
  ∧ res = {| changed := false;
             msg := "Completed to download assets on " +:+ destination p w |}.
Proof.
  intros Hcheck. rewrite run_module_cases, Hcheck. unfold selection.
  destruct (http w (release_request p)) as [e|r]; [by destruct e|].
  repeat case_decide; try done.
  destruct (json r) as [|[assets|]]; try done.
  destruct (assets_to_download (asset_names p) assets) as [|item items]; [done|].
  destruct (for_each _ _ _ _) as [[h|acc'] s1] eqn:Hloop.
  - apply for_each_download_inv in Hloop as [_ Hout].
    destruct h; [done| |]; intros [=].
  - pose proof Hloop as Hinv.
    apply for_each_download_inv in Hinv as [_ ->].
    apply for_each_download_continue_inv in Hloop as [Hok ->].
    simpl. intros [= <- <-]. by split_and!.
Qed.

(** X15: a run that fails with "Failed to download " followed by a name
    has selected an asset of that name whose request was answered with
    another status than 200, after the downloads of all selected assets
    before it went through. *)
Theorem fail_download_means_bad_status (p : params) (w : world) (s s' : state)
    (res : result) (name : string) :
  run_module p w s = (inl (FailJson res), s') →
  msg res = "Failed to download " +:+ name →
  ∃ pre id post r,
    selection p w = pre ++ (id, name) :: post
    ∧ Forall (download_ok p w) pre
    ∧ http w (asset_request p id) = inr r
    ∧ status_code r ≠ 200.
Proof.
  rewrite run_module_cases. unfold selection.
  destruct (check_mode p); [intros [=]|].
  destruct (http w (release_request p)) as [e|r].
  { destruct e; intros [= <- _] Hmsg; cbv in Hmsg; congruence. }
  repeat case_decide; try (intros [= <- _] Hmsg; by cbv in Hmsg).
  destruct (json r) as [|[assets|]]; [intros [=]| |intros [=]].
  destruct (assets_to_download (asset_names p) assets) as [|item items].
  { intros [= <- _] Hmsg. by cbv in Hmsg. }
  destruct (for_each _ _ _ _) as [[h|[dir|]] s1] eqn:Hloop; simpl;
    [|intros [=]..].
  intros [= -> ->] Hmsg.
  apply for_each_download_fail_inv in Hloop
    as (pre & id & name' & post & r' & Hitems & Hpre & Hget & Hst & ->).
  simpl in Hmsg. apply (inj (String.append _)) in Hmsg as ->.
  by exists pre, id, post, r'.
Qed.

(** The example's parameters in check mode, against a server that would
    answer. *)
Lemma check_mode_exits_witness :
  run_module example_check_params
    (example_world (release_response 200)
       (asset_response 200 first_content) (asset_response 200 second_content))
    disk_before
  = (inl (ExitJson {| changed := false; msg := EmptyString |}), disk_before).
Proof.
  exact (check_mode_exits example_check_params
           (example_world (release_response 200)
              (asset_response 200 first_content) (asset_response 200 second_content))
           disk_before eq_refl).
Defined.

(** The example's run on a disk that holds another file. *)
Lemma run_module_never_deletes_witness :
  is_Some (files (run_module (example_params None)
                    (example_world (release_response 200)
                       (asset_response 200 first_content) (asset_response 500 []))
                    disk_before).2 !! "/home/eub/notes.txt").
Proof.
  refine (proj1 (run_module_never_deletes (example_params None)
                   (example_world (release_response 200)
                      (asset_response 200 first_content) (asset_response 500 []))
                   disk_before) "/home/eub/notes.txt" _).
  eexists. reflexivity.
Defined.

(** The example's successful run, read backwards. *)
Lemma exit_json_only_after_every_download_witness :
  let p := example_params (Some ["a.tar.gz"]) in
  let w := example_world (release_response 200)
             (asset_response 200 first_content) (asset_response 200 second_content) in
  selection p w ≠ []
  ∧ Forall (download_ok p w) (selection p w)
  ∧ {| files := {[ "/home/eub/a.tar.gz" := [Byte.x1f; Byte.x8b; Byte.x08] ]};
       sent := [release_request p; asset_request p 1] |}
    = downloaded p w (selection p w) (asked p empty_state)
  ∧ {| changed := false; msg := "Completed to download assets on /home/eub" |}
    = {| changed := false;
         msg := "Completed to download assets on " +:+ destination p w |}.
Proof.
  intros p w.
  refine (exit_json_only_after_every_download p w empty_state _ _ eq_refl _).
  vm_compute. reflexivity.
Defined.

(** The run whose second download is answered with status 500. *)
Lemma fail_download_means_bad_status_witness :
  let p := example_params None in
  let w := example_world (release_response 200)
             (asset_response 200 first_content) (asset_response 500 []) in
  ∃ pre id post r,
    selection p w = pre ++ (id, "b.zip") :: post
    ∧ Forall (download_ok p w) pre
    ∧ http w (asset_request p id) = inr r
    ∧ status_code r ≠ 200.
Proof.
  intros p w.
  refine (fail_download_means_bad_status p w empty_state
            {| files := {[ "/home/eub/a.tar.gz" := [Byte.x1f; Byte.x8b; Byte.x08] ]};
               sent := [release_request p; asset_request p 1; asset_request p 2] |}
            {| changed := false; msg := "Failed to download b.zip" |}
            "b.zip" _ eq_refl).
  vm_compute. reflexivity.
Defined.

(** ** The message "There is no asset to download" *)

(** X12: once the release is listed, the run fails with "There is no
    asset to download" exactly when the filter is given and holds the
    name of no asset of the release; so it does for every release
    without assets, and for every release when the filter is the empty
    list. *)
Theorem no_asset_iff (p : params) (w : world) (s : state) (assets : list asset) :
  release_listed p w assets →
  (run_module p w s).1
  = inl (FailJson {| changed := false; msg := "There is no asset to download" |})
  ↔ ∀ a, a ∈ assets → ∃ f, asset_names p = Some f ∧ asset_name a ∉ f.
Proof.
  intros Hlisted. rewrite (run_module_listed _ _ _ _ Hlisted).
  assert ((∀ a, a ∈ assets → ∃ f, asset_names p = Some f ∧ asset_name a ∉ f)
          ↔ assets_to_download (asset_names p) assets = []) as ->.
  { rewrite assets_to_download_nil. apply forall_proper. intros a.
    by rewrite skipped_true. }
  destruct (assets_to_download (asset_names p) assets) as [|item items]; [done|].
  split; [|done].
  destruct (for_each _ _ _ _) as [[h|[dir|]] s1] eqn:Hloop; simpl; [|intros [=]..].
  apply for_each_download_inv in Hloop as [_ Hout].
  destruct h as [res|res|e]; [done| |intros [=]].
  destruct Hout as (id & name & _ & ->). intros [=].
Qed.

(** The empty filter against the example's release. *)
Lemma no_asset_iff_witness :
  (run_module (example_params (Some []))
     (example_world (release_response 200)
        (asset_response 200 first_content) (asset_response 200 second_content))
     empty_state).1
  = inl (FailJson {| changed := false; msg := "There is no asset to download" |}).
Proof.
  refine (proj2 (no_asset_iff (example_params (Some []))
                   (example_world (release_response 200)
                      (asset_response 200 first_content)
                      (asset_response 200 second_content))
                   empty_state two_assets (example_release_listed _ _ _)) _).
  intros a _. exists []. split; [reflexivity|apply not_elem_of_nil].
Defined.

(** ** The messages of a run *)

(** X10: a run that ends with [exit_json] carries the empty message or
    "Completed to download assets on " followed by the destination; a run
    that ends with [fail_json] carries one of the four fixed failure
    messages of the release stage and the selection, or "Failed to
    download " followed by the name of a selected asset.  There is no
    other message. *)
Theorem run_module_messages (p : params) (w : world) (s s' : state) (h : stop) :
  run_module p w s = (inl h, s') →
  match h with
  | ExitJson res =>
      msg res = EmptyString
      ∨ msg res = "Completed to download assets on " +:+ destination p w
  | FailJson res =>
      msg res ∈ ["Failed to connect " +:+ release_url p; "401 Unauthorized";
                 "404 Not Found"; "There is no asset to download"]
      ∨ ∃ id name, (id, name) ∈ selection p w
                   ∧ msg res = "Failed to download " +:+ name
  | Uncaught _ => True
  end.
Proof.
  intros Hrun. apply run_module_reported in Hrun.
  destruct Hrun; simpl; eauto; left; set_solver.
Qed.

(** The run whose second download is answered with status 500. *)
Lemma run_module_messages_witness :
  ("Failed to download b.zip"
   ∈ ["Failed to connect " +:+ example_api +:+ "/releases/latest";
      "401 Unauthorized"; "404 Not Found"; "There is no asset to download"])
  ∨ ∃ id name,
      (id, name) ∈ selection (example_params None)
                     (example_world (release_response 200)
                        (asset_response 200 first_content)
                        (asset_response 500 []))
      ∧ "Failed to download b.zip" = "Failed to download " +:+ name.
Proof.
  refine (run_module_messages (example_params None)
            (example_world (release_response 200)
               (asset_response 200 first_content) (asset_response 500 []))
            empty_state
            {| files := {[ "/home/eub/a.tar.gz" := [Byte.x1f; Byte.x8b; Byte.x08] ]};
               sent := [release_request (example_params None);
                        asset_request (example_params None) 1;
                        asset_request (example_params None) 2] |}
            (FailJson {| changed := false; msg := "Failed to download b.zip" |}) _).
  vm_compute. reflexivity.
Defined.

(** ** Exceptions nobody catches *)

(** X4: the [except] clause around the release request catches
    [ConnectionError] only: any other exception of [requests.get] ends
    the run uncaught, with neither [exit_json] nor [fail_json], after
    that one request and with the files untouched. *)
Theorem release_request_other_exception (p : params) (w : world) (s : state)
    (e : exception) :
  check_mode p = false →
  http w (release_request p) = inl e →
  e ≠ ConnectionError →
  run_module p w s
  = (inl (Uncaught e),
     {| files := files s; sent := sent s ++ [release_request p] |}).
Proof.
  intros Hcheck Hget Hne. rewrite run_module_cases, Hcheck, Hget.
  by destruct e.
Qed.

(** A release request that times out. *)
Lemma release_request_other_exception_witness :
  run_module (example_params None)
    (example_world (inl RequestException) (inl RequestException) (inl RequestException))
    empty_state
  = (inl (Uncaught RequestException),
     {| files := ∅; sent := [release_request (example_params None)] |}).
Proof.
  refine (release_request_other_exception (example_params None)
            (example_world (inl RequestException) (inl RequestException)
                           (inl RequestException))
            empty_state RequestException eq_refl eq_refl _).
  intros H. discriminate H.
Defined.

(** X5: when the downloads before [(id, name)] go through, the request
    for [id] is answered with status 200 and the file cannot be opened,
    the run ends with an uncaught [OSError]: no message is reported, the
    file of the asset is not created, the files written before stay, and
    no later asset is requested. *)
Theorem open_failure_escapes (p : params) (w : world) (s : state)
    (assets : list asset) (pre post : dict) (id : Z) (name : string)
    (r : response) :
  release_listed p w assets →
  assets_to_download (asset_names p) assets = pre ++ (id, name) :: post →
  Forall (download_ok p w) pre →
  http w (asset_request p id) = inr r →
  status_code r = 200 →
  writable w (path_join (destination p w) name) = false →
  run_module p w s
  = (inl (Uncaught OSError),
     {| files := foldl (store p w) (files s) pre;
        sent := sent s ++ release_request p
                  :: (asset_request p <$> pre.*1 ++ [id]) |}).
Proof.
  intros Hlisted Hsel Hok Hget Hst Hw.
  rewrite (run_module_prefix _ _ _ _ _ _ _ Hlisted Hsel Hok).
  erewrite bind_halt; last first.
  { rewrite download_step, Hget. simpl.
    rewrite decide_False by (intros Hne; by apply Hne). by rewrite Hw. }
  simpl. do 2 f_equal. rewrite fmap_app. simpl. by rewrite <- !app_assoc.
Qed.

(** The second asset of the example cannot be opened. *)
Lemma open_failure_escapes_witness :
  let p := example_params None in
  let w := guarded_world (release_response 200)
             (asset_response 200 first_content) (asset_response 200 second_content)
             only_first in
  run_module p w empty_state
  = (inl (Uncaught OSError),
     {| files := {[ "/home/eub/a.tar.gz" := [Byte.x1f; Byte.x8b; Byte.x08] ]};
        sent := [release_request p; asset_request p 1; asset_request p 2] |}).
Proof.
  intros p w.
  refine (open_failure_escapes p w empty_state two_assets
            [(1, "a.tar.gz")] [] 2 "b.zip"
            {| status_code := 200; json := NotJson;
               iter_content := second_content; interrupted := None |}
            _ eq_refl _ eq_refl eq_refl eq_refl).
  - split; [reflexivity|]. eexists. split; [reflexivity|].
    split_and!; [intros H; discriminate H | intros H; discriminate H | reflexivity].
  - apply Forall_cons_2; [|apply Forall_nil_2].
    vm_compute. by split_and!.
Defined.

(** X6: when the downloads before [(id, name)] go through, the request
    for [id] is answered with status 200, the file is opened and the
    stream breaks with an exception, that exception ends the run
    uncaught; the file of the asset stays on disk with the chunks
    received before the break, and no later asset is requested. *)
Theorem broken_stream_leaves_partial_file (p : params) (w : world) (s : state)
    (assets : list asset) (pre post : dict) (id : Z) (name : string)
    (r : response) (e : exception) :
  release_listed p w assets →
  assets_to_download (asset_names p) assets = pre ++ (id, name) :: post →
  Forall (download_ok p w) pre →
  http w (asset_request p id) = inr r →
  status_code r = 200 →
  writable w (path_join (destination p w) name) = true →
  interrupted r = Some e →
  run_module p w s
  = (inl (Uncaught e),
     {| files := <[path_join (destination p w) name := mjoin (iter_content r)]>
                   (foldl (store p w) (files s) pre);
        sent := sent s ++ release_request p
                  :: (asset_request p <$> pre.*1 ++ [id]) |}).
Proof.
  intros Hlisted Hsel Hok Hget Hst Hw Hint.
  rewrite (run_module_prefix _ _ _ _ _ _ _ Hlisted Hsel Hok).
  erewrite bind_halt; last first.
  { rewrite download_step, Hget. simpl.
    rewrite decide_False by (intros Hne; by apply Hne). by rewrite Hw, Hint. }
  unfold store, received. simpl. rewrite Hget.
  do 2 f_equal. rewrite fmap_app. simpl. by rewrite <- !app_assoc.
Qed.

(** The stream of the example's first asset breaks after one chunk. *)
Lemma broken_stream_leaves_partial_file_witness :
  let p := example_params None in
  let w := example_world (release_response 200)
             (broken_response [[Byte.x1f; Byte.x8b]] ConnectionError)
             (asset_response 200 second_content) in
  run_module p w empty_state
  = (inl (Uncaught ConnectionError),
     {| files := {[ "/home/eub/a.tar.gz" := [Byte.x1f; Byte.x8b] ]};
        sent := [release_request p; asset_request p 1] |}).
Proof.
  intros p w.
  exact (broken_stream_leaves_partial_file p w empty_state two_assets
           [] [(2, "b.zip")] 1 "a.tar.gz"
           {| status_code := 200; json := NotJson;
              iter_content := [[Byte.x1f; Byte.x8b]];
              interrupted := Some ConnectionError |}
           ConnectionError
           (example_release_listed _ _ _) eq_refl (Forall_nil_2 _)
           eq_refl eq_refl eq_refl eq_refl).
Defined.

(** ** The requests of a run *)

(** The requests a run adds, check mode included. *)
Lemma run_module_new_requests p w s :
  ∃ ids, NoDup ids
    ∧ sent (run_module p w s).2
      = sent s ++ (if check_mode p then []
                   else release_request p :: (asset_request p <$> ids)).
Proof.
  destruct (check_mode p) eqn:Hcheck.
  - exists []. split; [apply NoDup_nil_2|].
    rewrite run_module_cases, Hcheck. simpl. by rewrite app_nil_r.
  - destruct (run_module_sent p w s Hcheck) as (ids & [rest Hpre] & Hsent).
    exists ids. split; [|done].
    assert (NoDup (selection p w).*1) as Hnd.
    { unfold selection. destruct (http w (release_request p)) as [e|r];
        [apply NoDup_nil_2|].
      destruct (json r) as [|[assets|]];
        [apply NoDup_nil_2|apply assets_to_download_NoDup|apply NoDup_nil_2]. }
    rewrite Hpre in Hnd. by apply NoDup_app in Hnd as [? _].
Qed.


(** X11: every request of a run carries the header [Authorization] with
    "token " followed by the token, and the header [Accept] with
    [application/vnd.github+json] for the request that is not streamed
    and [application/octet-stream] for the streamed ones; only the first
    request of a run is not streamed. *)
Theorem request_headers (p : params) (w : world) (s : state) :
  ∃ new, sent (run_module p w s).2 = sent s ++ new
    ∧ Forall (λ rq, req_headers rq
                    = [("Accept", if req_stream rq then "application/octet-stream"
                                  else "application/vnd.github+json");
                       ("Authorization", "token " +:+ token p)]) new
    ∧ req_stream <$> new
      = match new with
        | [] => []
        | _ :: rest => false :: ((λ _, true) <$> rest)
        end.
Proof.
  destruct (run_module_new_requests p w s) as (ids & _ & Hsent).
  eexists. split; [exact Hsent|].
  destruct (check_mode p); [by split|]. split.
  - apply Forall_cons. split; [done|]. apply Forall_fmap, Forall_true. done.
  - rewrite fmap_cons. f_equal. rewrite <- !list_fmap_compose.
    by apply list_fmap_ext.
Qed.

(** ** Absolute asset names *)

(** X14: [os.path.join] drops the destination when the asset name starts
    with a slash: in a run whose downloads all go through, the last
    selected asset, when its name is absolute, is written to the path
    that is its name, whatever [output_path] and the working directory
    are. *)
Theorem absolute_name_leaves_destination (p : params) (w : world) (s : state)
    (assets : list asset) (pre : dict) (id : Z) (name : string) :
  release_listed p w assets →
  assets_to_download (asset_names p) assets = pre ++ [(id, name)] →
  Forall (download_ok p w) (pre ++ [(id, name)]) →
  String.prefix "/" name = true →
  files (run_module p w s).2 !! name = Some (received p w id).
Proof.
  intros Hlisted Hsel Hok Habs.
  rewrite (run_module_loop _ _ _ _ Hlisted) by (rewrite Hsel; by destruct pre).
  rewrite Hsel. rewrite <- (app_nil_r (pre ++ _)).
  rewrite for_each_download_ok by done.
  assert (path_of p w (id, name) = name) as Hpath.
  { unfold path_of, path_join. simpl. by rewrite Habs. }
  assert (files (finish (for_each (download p w initial_result)
                           (bound_after p w None (pre ++ [(id, name)])) []
                           (downloaded p w (pre ++ [(id, name)]) (asked p s)))).2
          = foldl (store p w) (files s) (pre ++ [(id, name)])) as ->.
  { simpl. by destruct (bound_after _ _ _ _). }
  pose proof (stored_last p w pre (id, name) [] (files s)) as Hlast.
  rewrite Hpath in Hlast. apply Hlast, not_elem_of_nil.
Qed.

(** A release whose asset is named [/tmp/setup.sh], with [output_path]
    left to the working directory [/home/eub]. *)
Lemma absolute_name_leaves_destination_witness :
  files (run_module (example_params None)
           (example_world absolute_release (asset_response 200 first_content)
              (inl ConnectionError))
           empty_state).2 !! "/tmp/setup.sh"
  = Some [Byte.x1f; Byte.x8b; Byte.x08].
Proof.
  refine (absolute_name_leaves_destination (example_params None)
            (example_world absolute_release (asset_response 200 first_content)
               (inl ConnectionError))
            empty_state [Asset 1 "/tmp/setup.sh"] [] 1 "/tmp/setup.sh"
            _ eq_refl _ eq_refl).
  - split; [reflexivity|]. eexists. split; [reflexivity|].
    split_and!; [intros H; discriminate H | intros H; discriminate H | reflexivity].
  - apply Forall_cons_2; [|apply Forall_nil_2]. vm_compute. by split_and!.
Defined.
